(** * Gesture-driven particle scene: classifier, field builder, physics tick

    A shallow embedding of
      - [src/services/gestureRecognition.ts] (module [Gesture]),
      - the texture-rebuild effect and the [animate] loop of
        [src/components/ThreeScene.tsx] (module [Scene]),
      - the tables of [src/constants.ts].

    Number model.  A JavaScript [number] is read as a real number: [+], [-],
    [*], [/], [Math.sqrt], [Math.pow], [Math.sin], [Math.cos], [Math.min],
    [Math.max] and [Math.floor] are the exact operations of [R], and [<], [>]
    are the order of [R].  Rounding, infinities and NaN of IEEE doubles are
    outside the model. *)

From Stdlib Require Import Reals Lra Lia List ZArith Bool Arith String.
Import ListNotations.

Open Scope R_scope.

(** ** JavaScript comparisons on numbers, as booleans *)

Definition ltb (a b : R) : bool := if Rlt_dec a b then true else false.
Definition gtb (a b : R) : bool := ltb b a.

(** ** Completion of a call: a value, or an uncaught [TypeError]

    Reading a property of [undefined] or [null] throws a [TypeError]; no
    [try] in the modelled code catches one. *)

Inductive outcome (A : Type) : Type :=
| Returned (a : A)
| TypeError.
Arguments Returned {A} a.
Arguments TypeError {A}.

(** ** types.ts *)

Inductive HandGesture : Type := NONE | FIST | OPEN_PALM | OK_SIGN.

Definition HandGesture_eqb (a b : HandGesture) : bool :=
  match a, b with
  | NONE, NONE | FIST, FIST | OPEN_PALM, OPEN_PALM | OK_SIGN, OK_SIGN => true
  | _, _ => false
  end.

(** ** constants.ts *)

Module CAMERA_LIMITS.
Definition MIN_Z : R := 5.
Definition MAX_Z : R := 40.
Definition DEFAULT_Z : R := 20.
End CAMERA_LIMITS.

Module PHYSICS.
Definition PULL_ACCELERATION : R := 0.1.
Definition PUSH_VELOCITY : R := 0.8.
Definition FRICTION : R := 0.92.
Definition SCATTER_RADIUS : R := 5.
Definition OK_SCALE_MULTIPLIER : R := 2.5.
End PHYSICS.

Module HAND_INDICES.
Definition WRIST : nat := 0.
Definition THUMB_CMC : nat := 1.
Definition THUMB_MCP : nat := 2.
Definition THUMB_IP : nat := 3.
Definition THUMB_TIP : nat := 4.
Definition INDEX_MCP : nat := 5.
Definition INDEX_PIP : nat := 6.
Definition INDEX_DIP : nat := 7.
Definition INDEX_TIP : nat := 8.
Definition MIDDLE_MCP : nat := 9.
Definition MIDDLE_PIP : nat := 10.
Definition MIDDLE_DIP : nat := 11.
Definition MIDDLE_TIP : nat := 12.
Definition RING_MCP : nat := 13.
Definition RING_PIP : nat := 14.
Definition RING_DIP : nat := 15.
Definition RING_TIP : nat := 16.
Definition PINKY_MCP : nat := 17.
Definition PINKY_PIP : nat := 18.
Definition PINKY_DIP : nat := 19.
Definition PINKY_TIP : nat := 20.
End HAND_INDICES.

(** ** services/gestureRecognition.ts *)

Module Gesture.

(** [interface Landmark]: [visibility] is optional. *)
Record Landmark : Type := mkLandmark {
  x : R;
  y : R;
  z : R;
  visibility : option R
}.

(** A [NormalizedLandmarkList] is an array; [landmarks[i]] past the end is
    [undefined], here [None]. *)
Definition NormalizedLandmarkList : Type := list Landmark.

Definition at_index (landmarks : NormalizedLandmarkList) (i : nat)
  : option Landmark := nth_error landmarks i.

(** *** Evaluation: the outcome of a call, and the number of distance
    computations it started

    [distances] counts the calls of [getDistance] made up to the return
    or the throw. *)

Record Eval (A : Type) : Type := mkEval {
  distances : nat;
  result : outcome A
}.
Arguments mkEval {A} _ _.
Arguments distances {A} _.
Arguments result {A} _.

Definition ret {A : Type} (a : A) : Eval A := mkEval 0 (Returned a).

Definition throw {A : Type} : Eval A := mkEval 0 TypeError.

Definition bind {A B : Type} (m : Eval A) (f : A -> Eval B) : Eval B :=
  match result m with
  | Returned a =>
      let r := f a in mkEval (distances m + distances r) (result r)
  | TypeError => mkEval (distances m) TypeError
  end.

Notation "v <- m ;; k" := (bind m (fun v => k))
  (at level 61, m at next level, right associativity).

(** [getDistance]: 2D Euclidean distance; the z coordinate is not read. *)
Definition getDistance (p1 p2 : option Landmark) : Eval R :=
  match p1, p2 with
  | Some a, Some b =>
      mkEval 1 (Returned (sqrt ((x a - x b) ^ 2 + (y a - y b) ^ 2)))
  | _, _ => mkEval 1 TypeError
  end.

Inductive fingerName : Type := INDEX | MIDDLE | RING | PINKY.

(** [HAND_INDICES[`${fingerName}_TIP`]] and [HAND_INDICES[`${fingerName}_PIP`]]. *)
Definition tipIndex (f : fingerName) : nat :=
  match f with
  | INDEX => HAND_INDICES.INDEX_TIP
  | MIDDLE => HAND_INDICES.MIDDLE_TIP
  | RING => HAND_INDICES.RING_TIP
  | PINKY => HAND_INDICES.PINKY_TIP
  end.

Definition pipIndex (f : fingerName) : nat :=
  match f with
  | INDEX => HAND_INDICES.INDEX_PIP
  | MIDDLE => HAND_INDICES.MIDDLE_PIP
  | RING => HAND_INDICES.RING_PIP
  | PINKY => HAND_INDICES.PINKY_PIP
  end.

Definition isFingerExtended (landmarks : NormalizedLandmarkList)
    (f : fingerName) : Eval bool :=
  let wrist := at_index landmarks HAND_INDICES.WRIST in
  let tip := at_index landmarks (tipIndex f) in
  let pip := at_index landmarks (pipIndex f) in
  dTip <- getDistance wrist tip ;;
  dPip <- getDistance wrist pip ;;
  ret (gtb dTip dPip).

(** [analyzeGesture]; the argument is [None] for [null]/[undefined]. *)
Definition analyzeGesture (landmarks : option NormalizedLandmarkList)
  : Eval HandGesture :=
  match landmarks with
  | None => ret NONE
  | Some l =>
      if (List.length l =? 0)%nat then ret NONE
      else
        let thumbTip := at_index l HAND_INDICES.THUMB_TIP in
        let indexTip := at_index l HAND_INDICES.INDEX_TIP in
        indexExtended <- isFingerExtended l INDEX ;;
        middleExtended <- isFingerExtended l MIDDLE ;;
        ringExtended <- isFingerExtended l RING ;;
        pinkyExtended <- isFingerExtended l PINKY ;;
        thumbIndexDist <- getDistance thumbTip indexTip ;;
        if ltb thumbIndexDist 0.05 && middleExtended && ringExtended
           && pinkyExtended
        then ret OK_SIGN
        else if negb indexExtended && negb middleExtended
                && negb ringExtended && negb pinkyExtended
        then ret FIST
        else if indexExtended && middleExtended && ringExtended
                && pinkyExtended
        then ret OPEN_PALM
        else ret NONE
  end.

(** [estimateHandProximity] has no guard: indexing [null] throws. *)
Definition estimateHandProximity (landmarks : option NormalizedLandmarkList)
  : Eval R :=
  match landmarks with
  | None => throw
  | Some l =>
      let wrist := at_index l HAND_INDICES.WRIST in
      let middleFingerMCP := at_index l HAND_INDICES.MIDDLE_MCP in
      palmSize <- getDistance wrist middleFingerMCP ;;
      ret (Rmin (Rmax ((palmSize - 0.1) / 0.4) 0) 1)
  end.

End Gesture.

(** ** components/ThreeScene.tsx *)

Module Scene.

(** [THREE.MathUtils.lerp] of three.js: [(1 - t) * x + t * y]. *)
Definition lerp (x y t : R) : R := (1 - t) * x + t * y.

(** An element of [rawParticles], as [generateRawParticlePositions]
    pushes them. *)
Record RawParticle : Type := mkRaw {
  x : R;
  y : R;
  z : R;
  vx : R;
  vy : R;
  vz : R
}.

(** [interface ParticleData]: [{...p, meshIndex, instanceIndex}]; the six
    spread fields are kept together as [raw]. *)
Record ParticleData : Type := mkParticle {
  raw : RawParticle;
  meshIndex : nat;
  instanceIndex : nat
}.

(** [stateRef.current] *)
Record PhysicsState : Type := mkState {
  cameraZ : R;
  velocityZ : R;
  scatterAmount : R;
  flowAmount : R;
  scaleMultiplier : R;
  particles : list ParticleData
}.

Definition initialState : PhysicsState :=
  {| cameraZ := CAMERA_LIMITS.DEFAULT_Z;
     velocityZ := 0;
     scatterAmount := 0;
     flowAmount := 0;
     scaleMultiplier := 1;
     particles := [] |}.

(** The refs of the component.  [camera] is [cameraRef.current], of which
    only [position.z] is modelled; [renderer], [scene] and [meshGroup] say
    whether the ref is set; [meshes] is [meshesRef.current], each
    [InstancedMesh] given by its instance count. *)
Record Refs : Type := mkRefs {
  state : PhysicsState;
  camera : option R;
  renderer : bool;
  scene : bool;
  meshGroup : bool;
  meshes : list nat
}.

(** Refs before the initialization effect has run. *)
Definition unmounted : Refs :=
  {| state := initialState; camera := None; renderer := false;
     scene := false; meshGroup := false; meshes := [] |}.

(** Effect 3, scene initialization, once the container is there: the
    camera is placed at [DEFAULT_Z] and the refs are stored. *)
Definition initScene (w : Refs) : Refs :=
  {| state := state w;
     camera := Some CAMERA_LIMITS.DEFAULT_Z;
     renderer := true;
     scene := true;
     meshGroup := true;
     meshes := meshes w |}.

(** *** Effect 4: particle and mesh reconstruction *)

Definition placeholder : string := "https://picsum.photos/64/64".

Definition texturesToUse (uploadedTextures : list string) : list string :=
  if (0 <? List.length uploadedTextures)%nat then uploadedTextures
  else [placeholder].

(** [arr[i] = v] for [i] inside the array. *)
Fixpoint set_nth {A : Type} (l : list A) (i : nat) (v : A) : list A :=
  match l, i with
  | [], _ => []
  | _ :: t, O => v :: t
  | h :: t, S j => h :: set_nth t j v
  end.

(** [arr[i]] for a number [i] that is an integer: [undefined] below 0 and
    past the end. *)
Definition at_number {A : Type} (l : list A) (i : Z) : option A :=
  if (i <? 0)%Z then None else nth_error l (Z.to_nat i).

(** The body of [rawParticles.forEach], run on the particles from
    position [k] on.  [random k] is the value [Math.random()] returns for
    the particle at position [k]; [particlesPerMesh[meshIndex].push(p)] on
    a missing group throws. *)
Fixpoint distribute (textureCount : nat) (random : nat -> R) (k : nat)
    (rawParticles : list RawParticle)
    (particlesPerMesh : list (list RawParticle))
    (finalParticles : list ParticleData)
  : outcome (list (list RawParticle) * list ParticleData) :=
  match rawParticles with
  | [] => Returned (particlesPerMesh, finalParticles)
  | p :: rest =>
      let meshIndex := Zfloor (random k * INR textureCount) in
      match at_number particlesPerMesh meshIndex with
      | None => TypeError
      | Some group =>
          let group' := group ++ [p] in
          let particlesPerMesh' :=
            set_nth particlesPerMesh (Z.to_nat meshIndex) group' in
          let finalParticles' :=
            finalParticles ++
              [ {| raw := p;
                   meshIndex := Z.to_nat meshIndex;
                   instanceIndex := (List.length group' - 1)%nat |} ] in
          distribute textureCount random (S k) rest
            particlesPerMesh' finalParticles'
      end
  end.

(** Steps 2 and 4 of the effect: the groups and the final particles. *)
Definition distributeParticles (uploadedTextures : list string)
    (rawParticles : list RawParticle) (random : nat -> R)
  : outcome (list (list RawParticle) * list ParticleData) :=
  let textures := texturesToUse uploadedTextures in
  distribute (List.length textures) random 0 rawParticles
    (map (fun _ => []) textures) [].

(** The whole effect.  [rawParticles] is what
    [generateRawParticlePositions] returned.  One [InstancedMesh] is pushed
    for every texture whose group is not empty. *)
Definition rebuild (uploadedTextures : list string)
    (rawParticles : list RawParticle) (random : nat -> R) (w : Refs)
  : outcome Refs :=
  if negb (meshGroup w) then Returned w
  else
    match distributeParticles uploadedTextures rawParticles random with
    | TypeError => TypeError
    | Returned (particlesPerMesh, finalParticles) =>
        let st := state w in
        Returned
          {| state :=
               {| cameraZ := cameraZ st;
                  velocityZ := velocityZ st;
                  scatterAmount := scatterAmount st;
                  flowAmount := flowAmount st;
                  scaleMultiplier := scaleMultiplier st;
                  particles := finalParticles |};
             camera := camera w;
             renderer := renderer w;
             scene := scene w;
             meshGroup := meshGroup w;
             meshes :=
               filter (fun count => negb (count =? 0)%nat)
                 (map (@List.length RawParticle) particlesPerMesh) |}
    end.

(** *** Effect 5: the animation loop *)

(** Assignments to the fields of [stateRef.current]. *)
Definition set_cameraZ (st : PhysicsState) (v : R) : PhysicsState :=
  {| cameraZ := v; velocityZ := velocityZ st;
     scatterAmount := scatterAmount st; flowAmount := flowAmount st;
     scaleMultiplier := scaleMultiplier st; particles := particles st |}.

Definition set_velocityZ (st : PhysicsState) (v : R) : PhysicsState :=
  {| cameraZ := cameraZ st; velocityZ := v;
     scatterAmount := scatterAmount st; flowAmount := flowAmount st;
     scaleMultiplier := scaleMultiplier st; particles := particles st |}.

Definition set_scatterAmount (st : PhysicsState) (v : R) : PhysicsState :=
  {| cameraZ := cameraZ st; velocityZ := velocityZ st;
     scatterAmount := v; flowAmount := flowAmount st;
     scaleMultiplier := scaleMultiplier st; particles := particles st |}.

Definition set_flowAmount (st : PhysicsState) (v : R) : PhysicsState :=
  {| cameraZ := cameraZ st; velocityZ := velocityZ st;
     scatterAmount := scatterAmount st; flowAmount := v;
     scaleMultiplier := scaleMultiplier st; particles := particles st |}.

Definition set_scaleMultiplier (st : PhysicsState) (v : R) : PhysicsState :=
  {| cameraZ := cameraZ st; velocityZ := velocityZ st;
     scatterAmount := scatterAmount st; flowAmount := flowAmount st;
     scaleMultiplier := v; particles := particles st |}.

(** The force a gesture adds to [velocityZ]. *)
Definition applyForce (gesture : HandGesture) (st : PhysicsState)
  : PhysicsState :=
  match gesture with
  | FIST => set_velocityZ st (velocityZ st + PHYSICS.PULL_ACCELERATION)
  | OPEN_PALM => set_velocityZ st (velocityZ st - 0.05)
  | _ => st
  end.

(** Friction, then [cameraZ += velocityZ]: the state before the limits. *)
Definition integrate (gesture : HandGesture) (st : PhysicsState)
  : PhysicsState :=
  let st := applyForce gesture st in
  let st := set_velocityZ st (velocityZ st * 0.96) in
  set_cameraZ st (cameraZ st + velocityZ st).

(** The two [if]s under "Limits". *)
Definition limitMax (st : PhysicsState) : PhysicsState :=
  if gtb (cameraZ st) CAMERA_LIMITS.MAX_Z
  then set_velocityZ (set_cameraZ st CAMERA_LIMITS.MAX_Z) 0
  else st.

Definition limitMin (st : PhysicsState) : PhysicsState :=
  if ltb (cameraZ st) CAMERA_LIMITS.MIN_Z
  then set_velocityZ (set_cameraZ st CAMERA_LIMITS.MIN_Z) 0
  else st.

(** "Camera Physics": lines 211-232 of [animate]. *)
Definition cameraPhysics (gesture : HandGesture) (st : PhysicsState)
  : PhysicsState :=
  limitMin (limitMax (integrate gesture st)).

(** "Particle Logic", steps 1 to 3: flow, scatter and scale amounts. *)
Definition particleLogic (gesture : HandGesture) (st : PhysicsState)
  : PhysicsState :=
  let isFlowing := HandGesture_eqb gesture OPEN_PALM in
  let st :=
    set_flowAmount st
      (lerp (flowAmount st) (if isFlowing then 1 else 0) 0.015) in
  let shouldScatter :=
    ltb (cameraZ st) 10 && HandGesture_eqb gesture OPEN_PALM in
  let st :=
    set_scatterAmount st
      (lerp (scatterAmount st) (if shouldScatter then 1 else 0) 0.05) in
  let targetScale :=
    if HandGesture_eqb gesture OK_SIGN
    then PHYSICS.OK_SCALE_MULTIPLIER else 1 in
  set_scaleMultiplier st (lerp (scaleMultiplier st) targetScale 0.1).

(** What [dummy.updateMatrix()] composes into [dummy.matrix]. *)
Record Transform : Type := mkTransform {
  position : R * R * R;
  rotation : R * R * R;
  scale : R * R * R
}.

(** The body of the particle loop up to [dummy.updateMatrix()];
    [time] is [Date.now() * 0.001]. *)
Definition particleTransform (gesture : HandGesture) (st : PhysicsState)
    (time : R) (p : ParticleData) : Transform :=
  let px := x (raw p) in
  let py := y (raw p) in
  let pz := z (raw p) in
  let rotX := 0 in
  let rotY := 0 in
  let rotZ := 0 in
  let wavePhase := x (raw p) * 0.08 - time * 0.2 in
  let flowing := gtb (flowAmount st) 0.001 in
  let pz := if flowing
            then pz + sin wavePhase * 5.0 * flowAmount st else pz in
  let py := if flowing
            then py + cos (wavePhase * 0.5) * 2.0 * flowAmount st else py in
  let rotX := if flowing
              then sin wavePhase * PI * 0.08 * flowAmount st else rotX in
  let rotZ := if flowing
              then cos wavePhase * PI * 0.04 * flowAmount st else rotZ in
  let scattering := gtb (scatterAmount st) 0.001 in
  let px := if scattering
            then px + vx (raw p) * 50 * scatterAmount st else px in
  let py := if scattering
            then py + vy (raw p) * 50 * scatterAmount st else py in
  let pz := if scattering
            then pz + vz (raw p) * 50 * scatterAmount st else pz in
  let rotX := if scattering
              then rotX + time * vx (raw p) * 10 * scatterAmount st
              else rotX in
  let rotY := if scattering
              then rotY + time * vy (raw p) * 10 * scatterAmount st
              else rotY in
  let s := if HandGesture_eqb gesture OK_SIGN
           then scaleMultiplier st else 1 in
  {| position := (px, py, pz);
     rotation := (rotX, rotY, rotZ);
     scale := (s, s, s) |}.

(** A call [meshesRef.current[mesh].setMatrixAt(instance, matrix)]. *)
Record Write : Type := mkWrite {
  mesh : nat;
  instance : nat;
  matrix : Transform
}.

(** The particle loop: one [setMatrixAt] per particle whose mesh exists. *)
Fixpoint updateParticles (gesture : HandGesture) (st : PhysicsState)
    (time : R) (meshList : list nat) (ps : list ParticleData)
  : list Write :=
  match ps with
  | [] => []
  | p :: rest =>
      let m := particleTransform gesture st time p in
      match nth_error meshList (meshIndex p) with
      | Some _ =>
          {| mesh := meshIndex p; instance := instanceIndex p;
             matrix := m |}
            :: updateParticles gesture st time meshList rest
      | None => updateParticles gesture st time meshList rest
      end
  end.

(** One frame of [animate] past its guard, for the camera position
    [cameraPositionZ]: the new state, the new [camera.position.z] and the
    matrices written.  [gesture] is [latestGestureRef.current] and [now] is
    [Date.now()], both read once.  [camera.lookAt], the [needsUpdate] flags
    and the render call belong to three.js and leave these values alone. *)
Definition tick (gesture : HandGesture) (now : R) (st : PhysicsState)
    (cameraPositionZ : R) (meshList : list nat)
  : PhysicsState * R * list Write :=
  let st := cameraPhysics gesture st in
  let cameraPositionZ := lerp cameraPositionZ (cameraZ st) 0.1 in
  let st := particleLogic gesture st in
  let time := now * 0.001 in
  (st, cameraPositionZ,
   updateParticles gesture st time meshList (particles st)).

(** [animate]: [None] when the guard returns, which also ends the loop
    since no further frame is requested. *)
Definition animate (gesture : HandGesture) (now : R) (w : Refs)
  : option (Refs * list Write) :=
  match camera w with
  | None => None
  | Some cameraPositionZ =>
      if negb (renderer w) || negb (scene w) then None
      else
        let '(st, cameraPositionZ', writes) :=
          tick gesture now (state w) cameraPositionZ (meshes w) in
        Some ({| state := st; camera := Some cameraPositionZ';
                 renderer := renderer w; scene := scene w;
                 meshGroup := meshGroup w; meshes := meshes w |},
              writes)
  end.

(** The loop over the gestures and clock values read at successive
    frames; it stops at the first frame whose guard returns. *)
Fixpoint frames (inputs : list (HandGesture * R)) (w : Refs) : Refs :=
  match inputs with
  | [] => w
  | (gesture, now) :: rest =>
      match animate gesture now w with
      | None => w
      | Some (w', _) => frames rest w'
      end
  end.

End Scene.

(** * Vocabulary of the specification *)

Module GestureSpec.
Import Gesture.

(** A LandmarkFrame: 21 landmarks. *)
Definition frame21 (l : NormalizedLandmarkList) : Prop :=
  List.length l = 21%nat.

(** The landmark bound to joint [i] of a frame. *)
Definition joint (l : NormalizedLandmarkList) (i : nat) : Landmark :=
  nth i l (mkLandmark 0 0 0 None).

(** The distance the classifier compares: the value [getDistance] returns
    on two landmarks. *)
Definition distance (a b : Landmark) : R :=
  sqrt ((x a - x b) ^ 2 + (y a - y b) ^ 2).

Definition wristToTip (l : NormalizedLandmarkList) (f : fingerName) : R :=
  distance (joint l HAND_INDICES.WRIST) (joint l (tipIndex f)).

Definition wristToPip (l : NormalizedLandmarkList) (f : fingerName) : R :=
  distance (joint l HAND_INDICES.WRIST) (joint l (pipIndex f)).

(** A finger is extended iff its tip distance strictly exceeds its PIP
    distance. *)
Definition extended (l : NormalizedLandmarkList) (f : fingerName) : Prop :=
  wristToTip l f > wristToPip l f.

Definition thumbIndexDistance (l : NormalizedLandmarkList) : R :=
  distance (joint l HAND_INDICES.THUMB_TIP) (joint l HAND_INDICES.INDEX_TIP).

(** The palm-size proxy of [estimateHandProximity]. *)
Definition palmSize (l : NormalizedLandmarkList) : R :=
  distance (joint l HAND_INDICES.WRIST) (joint l HAND_INDICES.MIDDLE_MCP).

(** Two landmarks with the same x and y; z and visibility are free. *)
Definition sameXY (a b : Landmark) : Prop := x a = x b /\ y a = y b.

(** The classification of a frame whose extension flags and thumb-index
    distance are known: the three tests of [analyzeGesture] in order. *)
Definition classification (thumbIndexDist : R)
    (indexExtended middleExtended ringExtended pinkyExtended : bool)
  : HandGesture :=
  if ltb thumbIndexDist 0.05 && middleExtended && ringExtended
     && pinkyExtended
  then OK_SIGN
  else if negb indexExtended && negb middleExtended
          && negb ringExtended && negb pinkyExtended
  then FIST
  else if indexExtended && middleExtended && ringExtended && pinkyExtended
  then OPEN_PALM
  else NONE.

Definition extendedb (l : NormalizedLandmarkList) (f : fingerName) : bool :=
  gtb (wristToTip l f) (wristToPip l f).

(** A frame on the x axis: every landmark at the origin except the thumb
    tip, and the PIP joints and tips of the four fingers, at the given
    abscissas. *)
Definition onAxis (v : R) : Landmark := mkLandmark v 0 0 None.

Definition axisFrame (thumbTip indexPip indexTip pip tip : R)
  : NormalizedLandmarkList :=
  [ onAxis 0; onAxis 0; onAxis 0; onAxis 0; onAxis thumbTip;
    onAxis 0; onAxis indexPip; onAxis 0; onAxis indexTip;
    onAxis 0; onAxis pip; onAxis 0; onAxis tip;
    onAxis 0; onAxis pip; onAxis 0; onAxis tip;
    onAxis 0; onAxis pip; onAxis 0; onAxis tip ].

(** A frame whose only displaced landmark is the middle-finger MCP, at
    abscissa [d]: its palm size is [d]. *)
Definition palmFrame (d : R) : NormalizedLandmarkList :=
  [ onAxis 0; onAxis 0; onAxis 0; onAxis 0; onAxis 0;
    onAxis 0; onAxis 0; onAxis 0; onAxis 0;
    onAxis d; onAxis 0; onAxis 0; onAxis 0;
    onAxis 0; onAxis 0; onAxis 0; onAxis 0;
    onAxis 0; onAxis 0; onAxis 0; onAxis 0 ].

(** The same frame seen at another depth: z and visibility replaced. *)
Definition atDepth (d : R) (l : NormalizedLandmarkList)
  : NormalizedLandmarkList :=
  map (fun p => mkLandmark (x p) (y p) d (Some 1)) l.

End GestureSpec.

Module SceneSpec.
Import Scene.

(** [Math.random()] returns a number of [0, 1). *)
Definition unitInterval (random : nat -> R) : Prop :=
  forall k : nat, 0 <= random k < 1.

(** The (groupIndex, slotIndex) pair of a particle. *)
Definition slot (p : ParticleData) : nat * nat :=
  (meshIndex p, instanceIndex p).

(** The slot indices of the particles of group [g], in build order. *)
Definition slotsOf (g : nat) (ps : list ParticleData) : list nat :=
  map instanceIndex (filter (fun p => (meshIndex p =? g)%nat) ps).

(** The number of members of group [g]. *)
Definition countOf (g : nat) (particlesPerMesh : list (list RawParticle))
  : nat :=
  List.length (nth g particlesPerMesh []).

(** What the builder maintains: the slots of every group are
    [0, 1, ..., count - 1], and every particle is in an existing group. *)
Definition consistent (particlesPerMesh : list (list RawParticle))
    (finalParticles : list ParticleData) : Prop :=
  (forall g : nat, (g < List.length particlesPerMesh)%nat ->
      slotsOf g finalParticles = seq 0 (countOf g particlesPerMesh))
  /\ (forall p : ParticleData, In p finalParticles ->
         (meshIndex p < List.length particlesPerMesh)%nat).

(** The inputs of [n] frames that all read the same gesture; [clock k] is
    the value of [Date.now()] at frame [k]. *)
Definition sustained (gesture : HandGesture) (clock : nat -> R) (n : nat)
  : list (HandGesture * R) :=
  map (fun k => (gesture, clock k)) (seq 0 n).

(** A frame every 16 ms. *)
Definition steadyClock (k : nat) : R := 16 * INR k.

(** The component once mounted: default state, scene initialized. *)
Definition mounted : Refs := initScene unmounted.

(** The three refs tested by the guard of [animate] are set. *)
Definition live (w : Refs) : Prop :=
  camera w <> None /\ renderer w = true /\ scene w = true.

(** What a gesture adds to [velocityZ] before friction. *)
Definition force (gesture : HandGesture) : R :=
  match gesture with
  | FIST => PHYSICS.PULL_ACCELERATION
  | OPEN_PALM => - 0.05
  | _ => 0
  end.

(** The refs after [n] frames of a sustained gesture from the mounted
    component. *)
Definition sustainedRun (gesture : HandGesture) (clock : nat -> R)
  (n : nat) : Refs :=
  frames (sustained gesture clock n) mounted.

(** The state, the camera position and the matrices a frame yields. *)
Definition stateAfter (gesture : HandGesture) (now : R)
  (st : PhysicsState) (cameraPositionZ : R) (meshList : list nat)
  : PhysicsState :=
  fst (fst (tick gesture now st cameraPositionZ meshList)).

Definition renderedAfter (gesture : HandGesture) (now : R)
  (st : PhysicsState) (cameraPositionZ : R) (meshList : list nat) : R :=
  snd (fst (tick gesture now st cameraPositionZ meshList)).

Definition writesOf (gesture : HandGesture) (now : R)
  (st : PhysicsState) (cameraPositionZ : R) (meshList : list nat)
  : list Write :=
  snd (tick gesture now st cameraPositionZ meshList).

(** The smoothing factors of flow and scatter. *)
Definition flowFactor : R := 0.015.
Definition scatterFactor : R := 0.05.

(** A limit is applied at a frame when the distance reached before the
    limits is past a bound. *)
Definition clampApplied (gesture : HandGesture) (st : PhysicsState)
  : Prop :=
  cameraZ (integrate gesture st) > CAMERA_LIMITS.MAX_Z
  \/ cameraZ (integrate gesture st) < CAMERA_LIMITS.MIN_Z.

Definition withinLimits (st : PhysicsState) : Prop :=
  CAMERA_LIMITS.MIN_Z <= cameraZ st <= CAMERA_LIMITS.MAX_Z.

(** The scatter rule as the specification words it: the near test is made
    on the rendered (smoothed) camera distance. *)
Definition scatterRuleOfSpec (gesture : HandGesture)
  (renderedDistance scatter : R) : R :=
  lerp scatter
  (if ltb renderedDistance 10 && HandGesture_eqb gesture OPEN_PALM
   then 1 else 0) scatterFactor.

(** The refs are live, at logical distance [z] with velocity [v]. *)
Definition cameraAt (w : Refs) (z v : R) : Prop :=
  live w /\ cameraZ (state w) = z /\ velocityZ (state w) = v.

(** The trajectory of a sustained gesture from the default state while no
    limit applies: velocity and distance after [n] frames. *)
Fixpoint freeVelocity (gesture : HandGesture) (n : nat) : R :=
  match n with
  | O => 0
  | S k => (freeVelocity gesture k + force gesture) * 0.96
  end.

Fixpoint freeDistance (gesture : HandGesture) (n : nat) : R :=
  match n with
  | O => CAMERA_LIMITS.DEFAULT_Z
  | S k => freeDistance gesture k + freeVelocity gesture (S k)
  end.

(** The rendered camera is not nearer than the logical one, and nothing is
    scattered yet. *)
Definition lagging (w : Refs) : Prop :=
  exists c : R,
  camera w = Some c /\ cameraZ (state w) <= c
  /\ scatterAmount (state w) = 0.

(** Live refs placed at logical distance [z] with velocity [v], the rendered
    camera at [c], no mesh. *)
Definition placedAt (z v c : R) : Refs :=
  {| state := set_velocityZ (set_cameraZ initialState z) v;
   camera := Some c; renderer := true; scene := true;
   meshGroup := true; meshes := [] |}.

(** A state left by an OK sign: one particle in one mesh, scale at the
    multiplier. *)
Definition afterOkSign : PhysicsState :=
  {| cameraZ := CAMERA_LIMITS.DEFAULT_Z; velocityZ := 0;
   scatterAmount := 0; flowAmount := 0;
   scaleMultiplier := PHYSICS.OK_SCALE_MULTIPLIER;
   particles :=
     [ {| raw := mkRaw 1 2 0 0.1 0.1 0.1;
          meshIndex := 0; instanceIndex := 0 |} ] |}.

End SceneSpec.

(** * More of the source *)

(** ** constants.ts: the scene configuration *)

Module SCENE_CONFIG.
Definition TEXT : string := "THANKS".
Definition FONT_SIZE : nat := 120.
Definition CANVAS_WIDTH : nat := 800.
Definition CANVAS_HEIGHT : nat := 300.
Definition PARTICLE_SIZE : R := 0.15.
Definition PARTICLE_GAP : nat := 2.
Definition DEFAULT_COLOR : Z := 0xffffff.
Definition BG_COLOR : Z := 0x050505.
End SCENE_CONFIG.

(** ** App.tsx: the [onResults] callback *)

Module App.
Import Gesture.

(** [interface Results]; [multiHandedness] and [image] are not read.
    [multiHandLandmarks] is [None] when the field is missing. *)
Record Results : Type := mkResults {
  multiHandLandmarks : option (list NormalizedLandmarkList)
}.

(** The callback given to [hands.onResults]: the value it passes to
    [setGesture], or the [TypeError] that escapes it. *)
Definition onResults (results : Results) : Eval HandGesture :=
  match multiHandLandmarks results with
  | Some (landmarks :: _) => analyzeGesture (Some landmarks)
  | _ => ret NONE
  end.

End App.

(** ** components/ThreeScene.tsx: [generateRawParticlePositions] *)

Module Raster.
Import Scene.

(** [for (let i = start; i < limit; i += step) body(i)], run on a state;
    [fuel] bounds the number of iterations. *)
Fixpoint forLoop {T : Type} (fuel i limit step : nat)
    (body : nat -> T -> T) (s : T) : T :=
  match fuel with
  | O => s
  | S fuel' =>
      if (i <? limit)%nat
      then forLoop fuel' (i + step) limit step body (body i s)
      else s
  end.

(** The body of the inner loop at pixel [(px, py)].  The state is
    [rawParticles] and the number of [Math.random()] calls made so far;
    [data] is [imageData.data], one byte per channel, and a read past its
    end is [undefined], which is not [> 128]. *)
Definition scanPixel (data : list nat) (random : nat -> R) (py px : nat)
    (s : list RawParticle * nat) : list RawParticle * nat :=
  let index := ((py * SCENE_CONFIG.CANVAS_WIDTH + px) * 4)%nat in
  match nth_error data index with
  | Some r =>
      if (128 <? r)%nat
      then
        (fst s ++
           [ {| x := (INR px - INR SCENE_CONFIG.CANVAS_WIDTH / 2)
                     * SCENE_CONFIG.PARTICLE_SIZE;
                y := (INR SCENE_CONFIG.CANVAS_HEIGHT / 2 - INR py)
                     * SCENE_CONFIG.PARTICLE_SIZE;
                z := 0;
                vx := (random (snd s) - 0.5) * 0.5;
                vy := (random (snd s + 1)%nat - 0.5) * 0.5;
                vz := (random (snd s + 2)%nat - 0.5) * 0.5 |} ],
         (snd s + 3)%nat)
      else s
  | None => s
  end.

(** The two nested loops over the bitmap. *)
Definition scanBitmap (data : list nat) (random : nat -> R)
  : list RawParticle * nat :=
  forLoop SCENE_CONFIG.CANVAS_HEIGHT 0 SCENE_CONFIG.CANVAS_HEIGHT
    SCENE_CONFIG.PARTICLE_GAP
    (fun py s =>
       forLoop SCENE_CONFIG.CANVAS_WIDTH 0 SCENE_CONFIG.CANVAS_WIDTH
         SCENE_CONFIG.PARTICLE_GAP (scanPixel data random py) s)
    ([], 0%nat).

(** [generateRawParticlePositions]: [ctx] is [None] when
    [canvas.getContext('2d')] is null, else the bytes [getImageData]
    returns after the text is drawn. *)
Definition generateRawParticlePositions (ctx : option (list nat))
    (random : nat -> R) : list RawParticle :=
  match ctx with
  | None => []
  | Some data => fst (scanBitmap data random)
  end.

(** Effect 4 with its call of [generateRawParticlePositions]: the group
    draws come after the three draws of every raw particle. *)
Definition textureEffect (uploadedTextures : list string)
    (ctx : option (list nat)) (random : nat -> R) (w : Refs)
  : outcome Refs :=
  let rawParticles := generateRawParticlePositions ctx random in
  rebuild uploadedTextures rawParticles
    (fun k => random (3 * List.length rawParticles + k)%nat) w.

End Raster.

(** ** Vocabulary for the further properties *)

Module MoreSpec.
Import Gesture GestureSpec Scene SceneSpec Raster.

(** A landmark turned by [theta] about the origin and shifted by
    [(dx, dy)] in the image plane. *)
Definition moved (theta dx dy : R) (p : Landmark) : Landmark :=
  mkLandmark (cos theta * Gesture.x p - sin theta * Gesture.y p + dx)
             (sin theta * Gesture.x p + cos theta * Gesture.y p + dy)
             (Gesture.z p) (visibility p).

(** A landmark magnified by [k] about the origin of the image plane. *)
Definition scaled (k : R) (p : Landmark) : Landmark :=
  mkLandmark (k * Gesture.x p) (k * Gesture.y p) (Gesture.z p)
    (visibility p).

(** The three eased amounts are in their ranges. *)
Definition amountsInRange (st : PhysicsState) : Prop :=
  0 <= flowAmount st <= 1
  /\ 0 <= scatterAmount st <= 1
  /\ 1 <= scaleMultiplier st <= PHYSICS.OK_SCALE_MULTIPLIER.

(** The velocity is between the terminal velocities of an open palm and
    of a fist. *)
Definition velocityBounded (st : PhysicsState) : Prop :=
  - 1.2 <= velocityZ st <= 2.4.

(** Nothing moves: no velocity, no flow, no scatter, scale 1. *)
Definition atRest (st : PhysicsState) : Prop :=
  velocityZ st = 0 /\ flowAmount st = 0 /\ scatterAmount st = 0
  /\ scaleMultiplier st = 1.

(** The base pose of a particle. *)
Definition basePose (p : ParticleData) : Transform :=
  {| position := (Scene.x (raw p), Scene.y (raw p), Scene.z (raw p));
     rotation := (0, 0, 0);
     scale := (1, 1, 1) |}.

(** The components of a pose. *)
Definition posX (t : Transform) : R := fst (fst (position t)).
Definition posY (t : Transform) : R := snd (fst (position t)).
Definition posZ (t : Transform) : R := snd (position t).
Definition rotX (t : Transform) : R := fst (fst (rotation t)).
Definition rotY (t : Transform) : R := snd (fst (rotation t)).
Definition rotZ (t : Transform) : R := snd (rotation t).

(** The particles [raw] numbered from [start] on, all in group [m]. *)
Fixpoint numbered (m start : nat) (rawParticles : list RawParticle)
  : list ParticleData :=
  match rawParticles with
  | [] => []
  | p :: rest =>
      {| raw := p; meshIndex := m; instanceIndex := start |}
        :: numbered m (S start) rest
  end.

(** The values a [for] loop with a positive step visits. *)
Definition visited (limit step : nat) : list nat :=
  map (fun i => (i * step)%nat) (seq 0 ((limit + step - 1) / step)).

(** The pixels the scan samples, row by row. *)
Definition sampled : list (nat * nat) :=
  flat_map
    (fun py =>
       map (fun px => (py, px))
         (visited SCENE_CONFIG.CANVAS_WIDTH SCENE_CONFIG.PARTICLE_GAP))
    (visited SCENE_CONFIG.CANVAS_HEIGHT SCENE_CONFIG.PARTICLE_GAP).

(** The red byte of a pixel is above 128. *)
Definition bright (data : list nat) (pixel : nat * nat) : bool :=
  match nth_error data
          (((fst pixel) * SCENE_CONFIG.CANVAS_WIDTH + snd pixel) * 4) with
  | Some r => (128 <? r)%nat
  | None => false
  end.

(** The world position of a pixel. *)
Definition worldOf (pixel : nat * nat) : R * R * R :=
  ((INR (snd pixel) - 400) * 0.15, (150 - INR (fst pixel)) * 0.15, 0).

Definition positionOf (p : RawParticle) : R * R * R :=
  (Scene.x p, Scene.y p, Scene.z p).

End MoreSpec.

(** * Facts about the number model *)

Lemma ltb_true (a b : R) : ltb a b = true <-> a < b.
Proof. unfold ltb; destruct (Rlt_dec a b); split; intros; try easy. Qed.

Lemma ltb_false (a b : R) : ltb a b = false <-> b <= a.
Proof.
  unfold ltb; destruct (Rlt_dec a b); split; intros; try easy; lra.
Qed.

Lemma gtb_true (a b : R) : gtb a b = true <-> b < a.
Proof. apply ltb_true. Qed.

Lemma gtb_false (a b : R) : gtb a b = false <-> a <= b.
Proof. apply ltb_false. Qed.

Lemma HandGesture_eqb_eq (a b : HandGesture) :
  HandGesture_eqb a b = true <-> a = b.
Proof. destruct a, b; simpl; split; intros; congruence. Qed.

Lemma HandGesture_eqb_neq (a b : HandGesture) :
  HandGesture_eqb a b = false <-> a <> b.
Proof. destruct a, b; simpl; split; intros; congruence. Qed.

(** * The gesture classifier *)

Section Classifier.
Import Gesture GestureSpec.

Lemma at_index_joint (l : NormalizedLandmarkList) (i : nat) :
  (i < List.length l)%nat -> at_index l i = Some (joint l i).
Proof.
  intros Hi. unfold at_index, joint. now apply nth_error_nth'.
Qed.

Lemma getDistance_defined (a b : Landmark) :
  getDistance (Some a) (Some b) = mkEval 1 (Returned (distance a b)).
Proof. reflexivity. Qed.

Lemma tipIndex_lt (f : fingerName) : (tipIndex f < 21)%nat.
Proof. destruct f; cbv; lia. Qed.

Lemma pipIndex_lt (f : fingerName) : (pipIndex f < 21)%nat.
Proof. destruct f; cbv; lia. Qed.

(** On a full frame a finger test makes two distance computations and
    returns the strict comparison. *)
Lemma isFingerExtended_frame21 (l : NormalizedLandmarkList)
    (f : fingerName) :
  frame21 l ->
  isFingerExtended l f = mkEval 2 (Returned (extendedb l f)).
Proof.
  intros Hl. unfold frame21 in Hl. unfold isFingerExtended.
  rewrite !at_index_joint
    by (rewrite Hl; first [apply tipIndex_lt | apply pipIndex_lt
                          | cbv; lia]).
  reflexivity.
Qed.

(** On a full frame [analyzeGesture] makes nine distance computations and
    returns the first of the three tests that holds. *)
Lemma analyzeGesture_frame21 (l : NormalizedLandmarkList) :
  frame21 l ->
  analyzeGesture (Some l) =
    mkEval 9
      (Returned
         (classification (thumbIndexDistance l) (extendedb l INDEX)
            (extendedb l MIDDLE) (extendedb l RING) (extendedb l PINKY))).
Proof.
  intros Hl. unfold analyzeGesture.
  rewrite !isFingerExtended_frame21 by assumption.
  unfold frame21 in Hl. rewrite Hl.
  rewrite !at_index_joint by (rewrite Hl; cbv; lia).
  change (21 =? 0)%nat with false. cbv iota.
  rewrite getDistance_defined.
  unfold bind, classification, thumbIndexDistance; cbn [result distances].
  repeat match goal with
         | |- context [if ?c then _ else _] => destruct c
         end; reflexivity.
Qed.

Lemma extendedb_true (l : NormalizedLandmarkList) (f : fingerName) :
  extendedb l f = true <-> extended l f.
Proof. unfold extendedb, extended. rewrite gtb_true. unfold Rgt. tauto. Qed.

Lemma extendedb_false (l : NormalizedLandmarkList) (f : fingerName) :
  extendedb l f = false <-> ~ extended l f.
Proof.
  unfold extendedb, extended. rewrite gtb_false. unfold Rgt. lra.
Qed.

Lemma estimateHandProximity_frame21 (l : NormalizedLandmarkList) :
  frame21 l ->
  estimateHandProximity (Some l) =
    mkEval 1 (Returned (Rmin (Rmax ((palmSize l - 0.1) / 0.4) 0) 1)).
Proof.
  intros Hl. unfold frame21 in Hl. unfold estimateHandProximity.
  rewrite !at_index_joint by (rewrite Hl; cbv; lia).
  reflexivity.
Qed.

(** Distances between landmarks of the x axis. *)
Lemma distance_onAxis (a b : R) :
  distance (onAxis a) (onAxis b) = Rabs (a - b).
Proof.
  unfold distance, onAxis; cbn [x y].
  replace ((a - b) ^ 2 + (0 - 0) ^ 2) with (Rsqr (a - b))
    by (unfold Rsqr; ring).
  apply sqrt_Rsqr_abs.
Qed.

Lemma distance_sameXY (a a' b b' : Landmark) :
  sameXY a a' -> sameXY b b' -> distance a b = distance a' b'.
Proof.
  intros [Hax Hay] [Hbx Hby]. unfold distance.
  now rewrite Hax, Hay, Hbx, Hby.
Qed.

Lemma joint_atDepth (d : R) (l : NormalizedLandmarkList) (i : nat) :
  (i < List.length l)%nat -> sameXY (joint l i) (joint (atDepth d l) i).
Proof.
  intros Hi. unfold joint, atDepth.
  set (f := fun p => mkLandmark (x p) (y p) d (Some 1)).
  rewrite (nth_indep (map f l) (mkLandmark 0 0 0 None)
             (f (mkLandmark 0 0 0 None)))
    by (now rewrite length_map).
  rewrite (map_nth f). split; reflexivity.
Qed.

(** Evaluation of the spec vocabulary on frames of the x axis. *)
Ltac on_axis :=
  unfold extended, wristToTip, wristToPip, thumbIndexDistance, palmSize,
    joint, axisFrame, palmFrame;
  cbn [nth tipIndex pipIndex HAND_INDICES.WRIST HAND_INDICES.THUMB_TIP
       HAND_INDICES.INDEX_TIP HAND_INDICES.INDEX_PIP
       HAND_INDICES.MIDDLE_TIP HAND_INDICES.MIDDLE_PIP
       HAND_INDICES.MIDDLE_MCP
       HAND_INDICES.RING_TIP HAND_INDICES.RING_PIP
       HAND_INDICES.PINKY_TIP HAND_INDICES.PINKY_PIP];
  rewrite ?distance_onAxis;
  unfold Rabs;
  repeat match goal with
         | |- context [Rcase_abs ?v] => destruct (Rcase_abs v)
         end;
  try lra.

(** C3.  On every 21-landmark frame whose thumb-tip to index-tip distance
    is strictly below 0.05 and whose middle, ring and pinky fingers are
    extended, [analyzeGesture] returns [OK_SIGN], whatever the index
    finger does; so a frame that also meets the open-palm test is
    [OK_SIGN] and not [OPEN_PALM]. *)
Theorem ok_sign_takes_precedence (l : NormalizedLandmarkList) :
  frame21 l ->
  thumbIndexDistance l < 0.05 ->
  extended l MIDDLE -> extended l RING -> extended l PINKY ->
  result (analyzeGesture (Some l)) = Returned OK_SIGN
  /\ result (analyzeGesture (Some l)) <> Returned OPEN_PALM.
Proof.
  intros Hl Hpinch Hm Hr Hp.
  rewrite analyzeGesture_frame21 by assumption. cbn [result].
  unfold classification.
  apply ltb_true in Hpinch. apply extendedb_true in Hm, Hr, Hp.
  rewrite Hpinch, Hm, Hr, Hp. cbn [andb].
  split; congruence.
Qed.

(** The pinched hand of the spec's scenario laid on the x axis, with the
    index finger extended as well. *)
Lemma ok_sign_takes_precedence_witness :
  let l := axisFrame 0.5 0.3 0.52 0.3 0.6 in
  extended l INDEX
  /\ result (analyzeGesture (Some l)) = Returned OK_SIGN
  /\ result (analyzeGesture (Some l)) <> Returned OPEN_PALM.
Proof.
  intro l. split.
  - subst l. on_axis.
  - apply (ok_sign_takes_precedence l); subst l;
      [ reflexivity | on_axis .. ].
Defined.

(** C7.  On every 21-landmark frame in which no finger among index,
    middle, ring and pinky is extended, [analyzeGesture] returns [FIST];
    no thumb landmark is constrained. *)
Theorem fist_when_no_finger_extended (l : NormalizedLandmarkList) :
  frame21 l ->
  (forall f : fingerName, ~ extended l f) ->
  result (analyzeGesture (Some l)) = Returned FIST.
Proof.
  intros Hl Hcurled.
  rewrite analyzeGesture_frame21 by assumption. cbn [result].
  unfold classification.
  pose proof (proj2 (extendedb_false l INDEX) (Hcurled INDEX)) as Hi.
  pose proof (proj2 (extendedb_false l MIDDLE) (Hcurled MIDDLE)) as Hm.
  pose proof (proj2 (extendedb_false l RING) (Hcurled RING)) as Hr.
  pose proof (proj2 (extendedb_false l PINKY) (Hcurled PINKY)) as Hp.
  rewrite Hi, Hm, Hr, Hp.
  rewrite !andb_false_r. reflexivity.
Qed.

(** A curled hand whose thumb tip touches the index tip: still [FIST]. *)
Lemma fist_when_no_finger_extended_witness :
  let l := axisFrame 0.2 0.3 0.2 0.3 0.3 in
  thumbIndexDistance l < 0.05
  /\ result (analyzeGesture (Some l)) = Returned FIST.
Proof.
  intro l. split.
  - subst l. on_axis.
  - apply (fist_when_no_finger_extended l); subst l;
      [ reflexivity | intros f; destruct f; on_axis ].
Defined.

(** C9.  For a null and for an empty frame [analyzeGesture] returns
    [NONE] without a [TypeError] and without starting any distance
    computation. *)
Theorem missing_frame_is_NONE :
  analyzeGesture None = mkEval 0 (Returned NONE)
  /\ analyzeGesture (Some []) = mkEval 0 (Returned NONE).
Proof. split; reflexivity. Qed.

(** A finger-extension check starts with a distance computation. *)
Lemma isFingerExtended_measures (l : NormalizedLandmarkList)
    (f : fingerName) :
  (1 <= distances (isFingerExtended l f))%nat.
Proof.
  unfold isFingerExtended, bind.
  destruct (getDistance (at_index l HAND_INDICES.WRIST)
              (at_index l (tipIndex f))) as [n r] eqn:Hd.
  assert (Hn : n = 1%nat).
  { unfold getDistance in Hd.
    destruct (at_index l HAND_INDICES.WRIST), (at_index l (tipIndex f));
      now injection Hd as <- _. }
  subst n. cbn [result distances]. destruct r; cbn [distances]; lia.
Qed.

(** Any other frame does start the classification work. *)
Lemma present_frame_measures (l : NormalizedLandmarkList) :
  l <> [] -> (1 <= distances (analyzeGesture (Some l)))%nat.
Proof.
  intros Hl. destruct l as [|p l]; [congruence|].
  unfold analyzeGesture. cbn [List.length Nat.eqb].
  unfold isFingerExtended at 1.
  unfold at_index at 1. cbn [nth_error HAND_INDICES.WRIST].
  destruct (at_index (p :: l) (tipIndex INDEX)) as [t|];
    [rewrite getDistance_defined|];
    unfold bind; cbn [result distances getDistance];
    repeat match goal with
           | |- context [match result ?e with _ => _ end] =>
               destruct (result e); cbn [result distances]
           end; lia.
Qed.

(** C10.  Two 21-landmark frames that agree on the x and y of every
    landmark, whatever their z and visibility, get the same gesture from
    [analyzeGesture] and the same score from [estimateHandProximity]
    (and the same number of distance computations). *)
Theorem classifier_ignores_depth (l1 l2 : NormalizedLandmarkList) :
  frame21 l1 -> frame21 l2 ->
  (forall i : nat, (i < 21)%nat -> sameXY (joint l1 i) (joint l2 i)) ->
  analyzeGesture (Some l1) = analyzeGesture (Some l2)
  /\ estimateHandProximity (Some l1) = estimateHandProximity (Some l2).
Proof.
  intros H1 H2 Hxy.
  assert (Hd : forall i j, (i < 21)%nat -> (j < 21)%nat ->
               distance (joint l1 i) (joint l1 j)
               = distance (joint l2 i) (joint l2 j)).
  { intros i j Hi Hj. apply distance_sameXY; now apply Hxy. }
  assert (He : forall f, extendedb l1 f = extendedb l2 f).
  { intros f. unfold extendedb, wristToTip, wristToPip.
    rewrite !(Hd HAND_INDICES.WRIST)
      by first [apply tipIndex_lt | apply pipIndex_lt | cbv; lia].
    reflexivity. }
  split.
  - rewrite !analyzeGesture_frame21 by assumption.
    unfold thumbIndexDistance.
    rewrite (Hd HAND_INDICES.THUMB_TIP HAND_INDICES.INDEX_TIP)
      by (cbv; lia).
    now rewrite !He.
  - rewrite !estimateHandProximity_frame21 by assumption.
    unfold palmSize.
    rewrite (Hd HAND_INDICES.WRIST HAND_INDICES.MIDDLE_MCP) by (cbv; lia).
    reflexivity.
Qed.

(** The pinched hand, and the same hand with every z set to 7 and a
    visibility added. *)
Lemma classifier_ignores_depth_witness :
  let l := axisFrame 0.5 0.3 0.52 0.3 0.6 in
  atDepth 7 l <> l
  /\ analyzeGesture (Some l) = analyzeGesture (Some (atDepth 7 l))
  /\ estimateHandProximity (Some l)
     = estimateHandProximity (Some (atDepth 7 l)).
Proof.
  intro l. split.
  - subst l. cbn. intros H. injection H as H _. lra.
  - apply (classifier_ignores_depth l (atDepth 7 l)).
    + reflexivity.
    + reflexivity.
    + intros i Hi. apply joint_atDepth. exact Hi.
Defined.

(** C6.  [estimateHandProximity] is non-decreasing in the palm size on
    [0.1, 0.5], is exactly 0 for a palm size of at most 0.1 and exactly 1
    for a palm size of at least 0.5. *)
Theorem proximity_monotone_and_clamped :
  (forall l1 l2 : NormalizedLandmarkList,
      frame21 l1 -> frame21 l2 ->
      0.1 <= palmSize l1 -> palmSize l1 <= palmSize l2 ->
      palmSize l2 <= 0.5 ->
      exists s1 s2 : R,
        result (estimateHandProximity (Some l1)) = Returned s1
        /\ result (estimateHandProximity (Some l2)) = Returned s2
        /\ s1 <= s2)
  /\ (forall l : NormalizedLandmarkList,
         frame21 l -> palmSize l <= 0.1 ->
         result (estimateHandProximity (Some l)) = Returned 0)
  /\ (forall l : NormalizedLandmarkList,
         frame21 l -> 0.5 <= palmSize l ->
         result (estimateHandProximity (Some l)) = Returned 1).
Proof.
  repeat split.
  - intros l1 l2 H1 H2 Hlo Hle Hhi.
    rewrite !estimateHandProximity_frame21 by assumption.
    cbn [result]. do 2 eexists. repeat split.
    apply Rle_min_compat_r, Rle_max_compat_r. lra.
  - intros l Hl Hlo.
    rewrite estimateHandProximity_frame21 by assumption. cbn [result].
    f_equal. rewrite Rmax_right by lra. apply Rmin_left. lra.
  - intros l Hl Hhi.
    rewrite estimateHandProximity_frame21 by assumption. cbn [result].
    f_equal. rewrite Rmax_left by lra. apply Rmin_right. lra.
Qed.

(** Palm sizes 0.2 and 0.3 inside the domain, 0.05 below it and 0.7
    above it. *)
Lemma proximity_monotone_and_clamped_witness :
  (exists s1 s2 : R,
      result (estimateHandProximity (Some (palmFrame 0.2))) = Returned s1
      /\ result (estimateHandProximity (Some (palmFrame 0.3))) = Returned s2
      /\ s1 <= s2)
  /\ result (estimateHandProximity (Some (palmFrame 0.05))) = Returned 0
  /\ result (estimateHandProximity (Some (palmFrame 0.7))) = Returned 1.
Proof.
  destruct proximity_monotone_and_clamped as (Hmono & Hlow & Hhigh).
  repeat split.
  - apply (Hmono (palmFrame 0.2) (palmFrame 0.3));
      [ reflexivity | reflexivity | on_axis .. ].
  - apply (Hlow (palmFrame 0.05)); [ reflexivity | on_axis ].
  - apply (Hhigh (palmFrame 0.7)); [ reflexivity | on_axis ].
Defined.

End Classifier.

(** * The particle field builder *)

Section Builder.
Import Scene SceneSpec.

Lemma length_set_nth {A : Type} (l : list A) (i : nat) (v : A) :
  List.length (set_nth l i v) = List.length l.
Proof.
  revert i; induction l as [|h t IH]; intros [|i]; cbn; auto.
Qed.

Lemma nth_set_nth_eq {A : Type} (l : list A) (i : nat) (v d : A) :
  (i < List.length l)%nat -> nth i (set_nth l i v) d = v.
Proof.
  revert i; induction l as [|h t IH]; intros [|i] Hi; cbn in *;
    try lia; auto. apply IH. lia.
Qed.

Lemma nth_set_nth_neq {A : Type} (l : list A) (i j : nat) (v d : A) :
  i <> j -> nth j (set_nth l i v) d = nth j l d.
Proof.
  revert i j; induction l as [|h t IH]; intros [|i] [|j] Hij; cbn;
    try congruence; auto.
Qed.

(** [Math.floor(Math.random() * n)] is an index of an array of length
    [n >= 1]. *)
Lemma floor_random_index (r : R) (n : nat) :
  0 <= r < 1 -> (0 < n)%nat ->
  (0 <= Zfloor (r * INR n) < Z.of_nat n)%Z.
Proof.
  intros [Hr0 Hr1] Hn.
  assert (HnR : 0 < INR n) by (apply lt_0_INR; exact Hn).
  split.
  - apply Zfloor_lub. simpl. nra.
  - apply lt_IZR. rewrite <- INR_IZR_INZ.
    pose proof (Zfloor_bound (r * INR n)) as [Hlo _]. nra.
Qed.

Lemma at_number_index {A : Type} (l : list A) (i : Z) (d : A) :
  (0 <= i < Z.of_nat (List.length l))%Z ->
  at_number l i = Some (nth (Z.to_nat i) l d).
Proof.
  intros [Hlo Hhi]. unfold at_number.
  destruct (Z.ltb_spec i 0); [lia|].
  apply nth_error_nth'. lia.
Qed.

Lemma slotsOf_app (g : nat) (ps qs : list ParticleData) :
  slotsOf g (ps ++ qs) = slotsOf g ps ++ slotsOf g qs.
Proof. unfold slotsOf. now rewrite filter_app, map_app. Qed.

(** One [push] keeps the groups and the particles consistent. *)
Lemma consistent_push (particlesPerMesh : list (list RawParticle))
    (finalParticles : list ParticleData) (m : nat) (p : RawParticle) :
  (m < List.length particlesPerMesh)%nat ->
  consistent particlesPerMesh finalParticles ->
  consistent
    (set_nth particlesPerMesh m (nth m particlesPerMesh [] ++ [p]))
    (finalParticles ++
       [ {| raw := p; meshIndex := m;
            instanceIndex :=
              (List.length (nth m particlesPerMesh [] ++ [p]) - 1)%nat |} ]).
Proof.
  intros Hm [Hslots Hgroups]. split.
  - intros g Hg. rewrite length_set_nth in Hg.
    rewrite slotsOf_app, (Hslots g Hg). unfold countOf.
    unfold slotsOf at 1. cbn [filter meshIndex].
    destruct (Nat.eqb_spec m g) as [->|Hne].
    + rewrite nth_set_nth_eq by assumption.
      rewrite length_app. cbn [map instanceIndex List.length].
      replace (List.length (nth g particlesPerMesh []) + 1 - 1)%nat
        with (List.length (nth g particlesPerMesh [])) by lia.
      replace (List.length (nth g particlesPerMesh []) + 1)%nat
        with (S (List.length (nth g particlesPerMesh []))) by lia.
      now rewrite seq_S.
    + rewrite nth_set_nth_neq by assumption.
      cbn [map]. now rewrite app_nil_r.
  - intros q Hq. rewrite length_set_nth.
    apply in_app_or in Hq as [Hq|[<-|[]]]; [now apply Hgroups|].
    exact Hm.
Qed.

(** The loop returns, keeps the number of groups, keeps consistency and
    produces one particle per raw particle, in order. *)
Lemma distribute_consistent (n : nat) (random : nat -> R) :
  unitInterval random -> (0 < n)%nat ->
  forall (rawParticles : list RawParticle) (k : nat)
         (particlesPerMesh : list (list RawParticle))
         (finalParticles : list ParticleData),
    List.length particlesPerMesh = n ->
    consistent particlesPerMesh finalParticles ->
    exists particlesPerMesh' finalParticles',
      distribute n random k rawParticles particlesPerMesh finalParticles
      = Returned (particlesPerMesh', finalParticles')
      /\ List.length particlesPerMesh' = n
      /\ consistent particlesPerMesh' finalParticles'
      /\ map raw finalParticles'
         = map raw finalParticles ++ rawParticles.
Proof.
  intros Hrand Hn rawParticles.
  induction rawParticles as [|p rest IH];
    intros k particlesPerMesh finalParticles Hlen Hcons.
  - exists particlesPerMesh, finalParticles. cbn [distribute].
    rewrite app_nil_r. auto.
  - cbn [distribute].
    pose proof (floor_random_index (random k) n (Hrand k) Hn) as Hidx.
    rewrite (at_number_index particlesPerMesh _ [])
      by (rewrite Hlen; exact Hidx).
    set (m := Z.to_nat (Zfloor (random k * INR n))).
    assert (Hm : (m < List.length particlesPerMesh)%nat)
      by (subst m; lia).
    destruct (IH (S k) _ _
                (eq_trans (length_set_nth _ _ _) Hlen)
                (consistent_push particlesPerMesh finalParticles m p
                   Hm Hcons))
      as (pm' & fp' & Hrun & Hlen' & Hcons' & Hraw).
    exists pm', fp'. repeat split; try assumption; try apply Hcons'.
    rewrite Hraw, map_app. cbn [map raw]. now rewrite <- app_assoc.
Qed.

(** Slots that are duplicate-free inside every group make the
    (group, slot) pairs duplicate-free. *)
Lemma NoDup_slot (ps : list ParticleData) :
  (forall g : nat, NoDup (slotsOf g ps)) -> NoDup (map slot ps).
Proof.
  induction ps as [|p ps IH]; intros Hg; cbn [map]; constructor.
  - intros Hin. apply in_map_iff in Hin as (q & Hq & Hqin).
    unfold slot in Hq. injection Hq as Hmesh Hinst.
    specialize (Hg (meshIndex p)). unfold slotsOf in Hg.
    cbn [filter] in Hg. rewrite Nat.eqb_refl in Hg. cbn [map] in Hg.
    apply NoDup_cons_iff in Hg as [Hnotin _]. apply Hnotin.
    rewrite <- Hinst. apply in_map. apply filter_In. split; [assumption|].
    now apply Nat.eqb_eq.
  - apply IH. intros g. specialize (Hg g). unfold slotsOf in *.
    cbn [filter] in Hg.
    destruct (meshIndex p =? g)%nat; [|assumption].
    cbn [map] in Hg. now apply NoDup_cons_iff in Hg as [_ Hg].
Qed.

Lemma texturesToUse_nonempty (uploadedTextures : list string) :
  (0 < List.length (texturesToUse uploadedTextures))%nat.
Proof.
  unfold texturesToUse.
  destruct (Nat.ltb_spec 0 (List.length uploadedTextures)); cbn; lia.
Qed.

Lemma slotsOf_missing_group (g n : nat) (ps : list ParticleData) :
  (forall p : ParticleData, In p ps -> (meshIndex p < n)%nat) ->
  (n <= g)%nat -> slotsOf g ps = [].
Proof.
  intros Hps Hg. unfold slotsOf.
  induction ps as [|p ps IH]; [reflexivity|]. cbn [filter].
  destruct (Nat.eqb_spec (meshIndex p) g) as [Heq|_].
  - specialize (Hps p (or_introl eq_refl)). lia.
  - apply IH. intros q Hq. apply Hps. now right.
Qed.

(** [texturesToUse.map(() => [])]: every group starts empty. *)
Lemma nth_empty_groups {A B : Type} (l : list A) (g : nat) :
  nth g (map (fun _ : A => @nil B) l) [] = [].
Proof.
  revert g; induction l as [|h t IH]; intros [|g]; cbn; auto.
Qed.

(** C8.  For every texture set (an empty one is replaced by the
    placeholder) and every outcome of the random draws, the builder
    returns; every particle lies in an existing group, the
    (groupIndex, slotIndex) pairs are pairwise distinct, and the slot
    indices of each group are exactly [0, 1, ..., count - 1], where
    [count] is the number of members of the group. *)
Theorem slots_unique_and_dense (uploadedTextures : list string)
    (rawParticles : list RawParticle) (random : nat -> R) :
  unitInterval random ->
  exists particlesPerMesh finalParticles,
    distributeParticles uploadedTextures rawParticles random
    = Returned (particlesPerMesh, finalParticles)
    /\ List.length particlesPerMesh
       = List.length (texturesToUse uploadedTextures)
    /\ map raw finalParticles = rawParticles
    /\ (forall p : ParticleData, In p finalParticles ->
           (meshIndex p < List.length particlesPerMesh)%nat)
    /\ NoDup (map slot finalParticles)
    /\ (forall g : nat, (g < List.length particlesPerMesh)%nat ->
           slotsOf g finalParticles = seq 0 (countOf g particlesPerMesh)
           /\ countOf g particlesPerMesh
              = List.length (slotsOf g finalParticles)).
Proof.
  intros Hrand. unfold distributeParticles.
  set (textures := texturesToUse uploadedTextures).
  assert (Hinit : consistent (map (fun _ : string => @nil RawParticle)
                                textures) []).
  { split; [|intros p []].
    intros g Hg. unfold countOf, slotsOf. cbn [filter map].
    now rewrite nth_empty_groups. }
  destruct (distribute_consistent (List.length textures) random Hrand
              (texturesToUse_nonempty uploadedTextures)
              rawParticles 0 _ [] (length_map _ _) Hinit)
    as (pm & fp & Hrun & Hlen & [Hslots Hgroups] & Hraw).
  exists pm, fp. repeat split; try assumption.
  - apply NoDup_slot. intros g.
    destruct (Nat.lt_ge_cases g (List.length pm)) as [Hg|Hg].
    + rewrite (Hslots g Hg). apply seq_NoDup.
    + rewrite (slotsOf_missing_group g (List.length pm) fp Hgroups Hg).
      constructor.
  - now apply Hslots.
  - rewrite (Hslots g) by assumption. now rewrite length_seq.
Qed.

(** Two textures, three raw particles, and draws 0.7, 0.2, 0.7, ... *)
Lemma slots_unique_and_dense_witness :
  let random := fun k : nat => if Nat.even k then 0.7 else 0.2 in
  let rawParticles :=
    [ mkRaw 1 2 0 0.1 0.1 0.1; mkRaw 3 4 0 0.2 0.2 0.2;
      mkRaw 5 6 0 0.1 0.2 0.1 ] in
  exists particlesPerMesh finalParticles,
    distributeParticles ["a"%string; "b"%string] rawParticles random
    = Returned (particlesPerMesh, finalParticles)
    /\ NoDup (map slot finalParticles)
    /\ slotsOf 1 finalParticles = seq 0 (countOf 1 particlesPerMesh).
Proof.
  intros random rawParticles.
  assert (Hrand : unitInterval random).
  { intros k. unfold random. destruct (Nat.even k); lra. }
  destruct (slots_unique_and_dense ["a"%string; "b"%string]
              rawParticles random Hrand)
    as (pm & fp & Hrun & Hlen & _ & _ & Hnodup & Hdense).
  exists pm, fp. repeat split; try assumption.
  apply Hdense. rewrite Hlen. cbn. lia.
Defined.

(** The effect stores the particles of [distributeParticles] in the
    state, and keeps one mesh per group that has members. *)
Lemma rebuild_particles (uploadedTextures : list string)
    (rawParticles : list RawParticle) (random : nat -> R) (w : Refs)
    (particlesPerMesh : list (list RawParticle))
    (finalParticles : list ParticleData) :
  meshGroup w = true ->
  distributeParticles uploadedTextures rawParticles random
  = Returned (particlesPerMesh, finalParticles) ->
  exists w' : Refs,
    rebuild uploadedTextures rawParticles random w = Returned w'
    /\ particles (state w') = finalParticles
    /\ meshes w'
       = filter (fun count => negb (count =? 0)%nat)
           (map (@List.length RawParticle) particlesPerMesh).
Proof.
  intros Hgroup Hrun. unfold rebuild. rewrite Hgroup, Hrun. cbn [negb].
  eexists. repeat split.
Qed.

End Builder.

(** * The physics state machine *)

Section Physics.
Import Scene SceneSpec.

(** [lerp] is the exponential smoothing [value += (target - value) * factor]. *)
Lemma lerp_smoothing (v target factor : R) :
  lerp v target factor = v + (target - v) * factor.
Proof. unfold lerp. ring. Qed.

(** *** Camera physics *)

Lemma applyForce_velocityZ (g : HandGesture) (st : PhysicsState) :
  velocityZ (applyForce g st) = velocityZ st + force g.
Proof. destruct g; cbn; unfold PHYSICS.PULL_ACCELERATION; lra. Qed.

Lemma applyForce_cameraZ (g : HandGesture) (st : PhysicsState) :
  cameraZ (applyForce g st) = cameraZ st.
Proof. destruct g; reflexivity. Qed.

Lemma integrate_velocityZ (g : HandGesture) (st : PhysicsState) :
  velocityZ (integrate g st) = (velocityZ st + force g) * 0.96.
Proof.
  unfold integrate. cbn [velocityZ set_cameraZ set_velocityZ].
  now rewrite applyForce_velocityZ.
Qed.

Lemma integrate_cameraZ (g : HandGesture) (st : PhysicsState) :
  cameraZ (integrate g st) = cameraZ st + (velocityZ st + force g) * 0.96.
Proof.
  unfold integrate. cbn [cameraZ velocityZ set_cameraZ set_velocityZ].
  now rewrite applyForce_velocityZ, applyForce_cameraZ.
Qed.

(** The three ways a frame leaves the limits. *)
Lemma cameraPhysics_above (g : HandGesture) (st : PhysicsState) :
  cameraZ (integrate g st) > CAMERA_LIMITS.MAX_Z ->
  cameraZ (cameraPhysics g st) = CAMERA_LIMITS.MAX_Z
  /\ velocityZ (cameraPhysics g st) = 0.
Proof.
  intros Habove. unfold cameraPhysics, limitMax.
  rewrite (proj2 (gtb_true _ _)) by exact Habove.
  unfold limitMin. cbn [cameraZ set_velocityZ set_cameraZ].
  rewrite (proj2 (ltb_false _ _))
    by (unfold CAMERA_LIMITS.MIN_Z, CAMERA_LIMITS.MAX_Z; lra).
  split; reflexivity.
Qed.

Lemma cameraPhysics_below (g : HandGesture) (st : PhysicsState) :
  cameraZ (integrate g st) < CAMERA_LIMITS.MIN_Z ->
  cameraZ (cameraPhysics g st) = CAMERA_LIMITS.MIN_Z
  /\ velocityZ (cameraPhysics g st) = 0.
Proof.
  intros Hbelow. unfold cameraPhysics, limitMax.
  rewrite (proj2 (gtb_false _ _))
    by (revert Hbelow; unfold CAMERA_LIMITS.MIN_Z, CAMERA_LIMITS.MAX_Z; lra).
  unfold limitMin. rewrite (proj2 (ltb_true _ _)) by exact Hbelow.
  split; reflexivity.
Qed.

Lemma cameraPhysics_within (g : HandGesture) (st : PhysicsState) :
  CAMERA_LIMITS.MIN_Z <= cameraZ (integrate g st) <= CAMERA_LIMITS.MAX_Z ->
  cameraPhysics g st = integrate g st.
Proof.
  intros [Hlo Hhi]. unfold cameraPhysics, limitMax.
  rewrite (proj2 (gtb_false _ _)) by exact Hhi.
  unfold limitMin. now rewrite (proj2 (ltb_false _ _)) by exact Hlo.
Qed.

Lemma cameraPhysics_withinLimits (g : HandGesture) (st : PhysicsState) :
  withinLimits (cameraPhysics g st).
Proof.
  unfold withinLimits.
  destruct (Rlt_dec CAMERA_LIMITS.MAX_Z (cameraZ (integrate g st))) as [H|H].
  - destruct (cameraPhysics_above g st H) as [-> _].
    unfold CAMERA_LIMITS.MIN_Z, CAMERA_LIMITS.MAX_Z; lra.
  - destruct (Rlt_dec (cameraZ (integrate g st)) CAMERA_LIMITS.MIN_Z)
      as [H'|H'].
    + destruct (cameraPhysics_below g st H') as [-> _].
      unfold CAMERA_LIMITS.MIN_Z, CAMERA_LIMITS.MAX_Z; lra.
    + rewrite cameraPhysics_within; lra.
Qed.

(** *** Particle logic *)

Lemma particleLogic_cameraZ (g : HandGesture) (st : PhysicsState) :
  cameraZ (particleLogic g st) = cameraZ st.
Proof. reflexivity. Qed.

Lemma particleLogic_velocityZ (g : HandGesture) (st : PhysicsState) :
  velocityZ (particleLogic g st) = velocityZ st.
Proof. reflexivity. Qed.

Lemma particleLogic_particles (g : HandGesture) (st : PhysicsState) :
  particles (particleLogic g st) = particles st.
Proof. reflexivity. Qed.

Lemma cameraPhysics_amounts (g : HandGesture) (st : PhysicsState) :
  scatterAmount (cameraPhysics g st) = scatterAmount st
  /\ flowAmount (cameraPhysics g st) = flowAmount st
  /\ scaleMultiplier (cameraPhysics g st) = scaleMultiplier st
  /\ particles (cameraPhysics g st) = particles st.
Proof.
  unfold cameraPhysics, limitMin, limitMax, integrate.
  repeat match goal with
         | |- context [if ?c then _ else _] => destruct c
         end; destruct g; repeat split; reflexivity.
Qed.

Lemma stateAfter_eq (g : HandGesture) (now : R) (st : PhysicsState)
    (c : R) (meshList : list nat) :
  stateAfter g now st c meshList = particleLogic g (cameraPhysics g st).
Proof. reflexivity. Qed.

(** *** The guard and the loop *)

Lemma animate_live (g : HandGesture) (now : R) (w : Refs) (c : R) :
  camera w = Some c -> renderer w = true -> scene w = true ->
  animate g now w =
    Some ({| state := stateAfter g now (state w) c (meshes w);
             camera := Some (renderedAfter g now (state w) c (meshes w));
             renderer := true; scene := true;
             meshGroup := meshGroup w; meshes := meshes w |},
          writesOf g now (state w) c (meshes w)).
Proof.
  intros Hc Hr Hs. unfold animate. rewrite Hc, Hr, Hs. reflexivity.
Qed.

Lemma animate_some (g : HandGesture) (now : R) (w w' : Refs)
    (writes : list Write) :
  animate g now w = Some (w', writes) ->
  exists c : R,
    camera w = Some c
    /\ state w' = stateAfter g now (state w) c (meshes w)
    /\ camera w' = Some (renderedAfter g now (state w) c (meshes w))
    /\ writes = writesOf g now (state w) c (meshes w)
    /\ live w'.
Proof.
  unfold animate. destruct (camera w) as [c|]; [|discriminate].
  destruct (renderer w), (scene w); cbn [negb orb]; try discriminate.
  intros H. injection H as <- <-. exists c.
  repeat split; cbn; congruence.
Qed.

Lemma animate_guard (g g' : HandGesture) (now now' : R) (w : Refs) :
  animate g now w = None -> animate g' now' w = None.
Proof.
  unfold animate. destruct (camera w); [|reflexivity].
  destruct (negb (renderer w) || negb (scene w)); [reflexivity|discriminate].
Qed.

Lemma frames_stopped (inputs : list (HandGesture * R)) (w : Refs)
    (g : HandGesture) (now : R) :
  animate g now w = None -> frames inputs w = w.
Proof.
  intros Hstop. destruct inputs as [|[g' now'] rest]; [reflexivity|].
  cbn [frames]. now rewrite (animate_guard g g' now now' w Hstop).
Qed.

Lemma frames_app (l1 l2 : list (HandGesture * R)) (w : Refs) :
  frames (l1 ++ l2) w = frames l2 (frames l1 w).
Proof.
  revert w; induction l1 as [|[g now] l1 IH]; intros w; [reflexivity|].
  cbn [frames app].
  destruct (animate g now w) as [[w' writes]|] eqn:Hstep.
  - apply IH.
  - symmetry. apply (frames_stopped l2 w g now Hstep).
Qed.

Lemma frame_live (g : HandGesture) (now : R) (w : Refs) :
  live w ->
  exists c : R,
    camera w = Some c
    /\ state (frames [(g, now)] w) = stateAfter g now (state w) c (meshes w)
    /\ camera (frames [(g, now)] w)
       = Some (renderedAfter g now (state w) c (meshes w))
    /\ live (frames [(g, now)] w).
Proof.
  intros (Hc & Hr & Hs). destruct (camera w) as [c|] eqn:Hcam;
    [|congruence].
  exists c. cbn [frames]. rewrite (animate_live g now w c Hcam Hr Hs).
  repeat split; cbn; congruence.
Qed.

Lemma frames_withinLimits (inputs : list (HandGesture * R)) (w : Refs) :
  withinLimits (state w) -> withinLimits (state (frames inputs w)).
Proof.
  revert w; induction inputs as [|[g now] rest IH]; intros w Hw;
    [exact Hw|].
  cbn [frames].
  destruct (animate g now w) as [[w' writes]|] eqn:Hstep; [|exact Hw].
  apply IH. apply animate_some in Hstep as (c & _ & Hst & _).
  rewrite Hst, stateAfter_eq. unfold withinLimits.
  rewrite particleLogic_cameraZ. apply cameraPhysics_withinLimits.
Qed.

(** C2.  Whatever the gestures and clock values of a sequence of frames,
    a [cameraZ] that starts in [MIN_Z, MAX_Z] is in [MIN_Z, MAX_Z] after
    the sequence (so after every frame of it); and a frame on which a limit
    is applied ends with [velocityZ = 0], at the bound. *)
Theorem camera_stays_within_limits :
  (forall (inputs : list (HandGesture * R)) (w : Refs),
      withinLimits (state w) -> withinLimits (state (frames inputs w)))
  /\ (forall (g : HandGesture) (now : R) (w w' : Refs)
             (writes : list Write),
         animate g now w = Some (w', writes) ->
         clampApplied g (state w) ->
         velocityZ (state w') = 0
         /\ (cameraZ (state w') = CAMERA_LIMITS.MAX_Z
             \/ cameraZ (state w') = CAMERA_LIMITS.MIN_Z)).
Proof.
  split; [exact frames_withinLimits|].
  intros g now w w' writes Hstep Hclamp.
  apply animate_some in Hstep as (c & _ & Hst & _).
  rewrite Hst, stateAfter_eq.
  rewrite particleLogic_cameraZ, particleLogic_velocityZ.
  destruct Hclamp as [Habove|Hbelow].
  - destruct (cameraPhysics_above g (state w) Habove) as [Hz Hv]. auto.
  - destruct (cameraPhysics_below g (state w) Hbelow) as [Hz Hv]. auto.
Qed.

(** Three frames from the mounted component; and a fist at distance 39.95,
    which the limit stops. *)
Lemma camera_stays_within_limits_witness :
  withinLimits
    (state (frames [(FIST, 0); (OPEN_PALM, 16); (NONE, 33)] mounted))
  /\ exists w' writes,
       animate FIST 0 (placedAt 39.95 0 39) = Some (w', writes)
       /\ velocityZ (state w') = 0
       /\ (cameraZ (state w') = CAMERA_LIMITS.MAX_Z
           \/ cameraZ (state w') = CAMERA_LIMITS.MIN_Z).
Proof.
  destruct camera_stays_within_limits as [Hwithin Hclamp]. split.
  - apply Hwithin. cbn. unfold withinLimits. cbn.
    unfold CAMERA_LIMITS.MIN_Z, CAMERA_LIMITS.MAX_Z,
      CAMERA_LIMITS.DEFAULT_Z. lra.
  - assert (Hc : clampApplied FIST (state (placedAt 39.95 0 39))).
    { left. rewrite integrate_cameraZ. cbn.
      unfold CAMERA_LIMITS.MAX_Z, PHYSICS.PULL_ACCELERATION. lra. }
    do 2 eexists. split; [reflexivity|].
    exact (Hclamp FIST 0 (placedAt 39.95 0 39) _ _ eq_refl Hc).
Defined.

(** *** Scale *)

Lemma particleTransform_scale (g : HandGesture) (st : PhysicsState)
    (time : R) (p : ParticleData) :
  scale (particleTransform g st time p)
  = if HandGesture_eqb g OK_SIGN
    then (scaleMultiplier st, scaleMultiplier st, scaleMultiplier st)
    else (1, 1, 1).
Proof.
  unfold particleTransform. cbn [scale].
  now destruct (HandGesture_eqb g OK_SIGN).
Qed.

(** The matrices written are those of the particles whose mesh exists. *)
Lemma updateParticles_In (g : HandGesture) (st : PhysicsState) (time : R)
    (meshList : list nat) (ps : list ParticleData) (wr : Write) :
  In wr (updateParticles g st time meshList ps) <->
  exists p : ParticleData,
    In p ps /\ nth_error meshList (meshIndex p) <> None
    /\ wr = {| mesh := meshIndex p; instance := instanceIndex p;
               matrix := particleTransform g st time p |}.
Proof.
  induction ps as [|q ps IH]; cbn [updateParticles].
  - split; [intros []|intros (p & [] & _)].
  - destruct (nth_error meshList (meshIndex q)) eqn:Hq.
    + split.
      * intros [<-|Hin].
        -- exists q. repeat split; [now left|congruence].
        -- apply IH in Hin as (p & Hp & Hm & Hw). exists p.
           repeat split; [now right|assumption|assumption].
      * intros (p & [->|Hp] & Hm & ->); [now left|].
        right. apply IH. now exists p.
    + rewrite IH. split.
      * intros (p & Hp & Hm & Hw). exists p.
        repeat split; [now right|assumption|assumption].
      * intros (p & [->|Hp] & Hm & Hw); [congruence|]. now exists p.
Qed.

(** C5.  On every frame, every matrix written has the smoothed
    [scaleMultiplier] of that frame as uniform scale when the gesture read
    is [OK_SIGN], and exactly 1 for any other gesture; every particle whose
    mesh exists gets such a matrix; and under another gesture the smoothed
    value itself only moves a tenth of the way to 1, so it is still above 1
    when it was. *)
Theorem scale_is_gated_by_gesture (g : HandGesture) (now : R)
    (st : PhysicsState) (c : R) (meshList : list nat) :
  let st' := stateAfter g now st c meshList in
  let writes := writesOf g now st c meshList in
  (forall wr : Write, In wr writes ->
      (g = OK_SIGN ->
       scale (matrix wr)
       = (scaleMultiplier st', scaleMultiplier st', scaleMultiplier st'))
      /\ (g <> OK_SIGN -> scale (matrix wr) = (1, 1, 1)))
  /\ (forall p : ParticleData, In p (particles st) ->
         nth_error meshList (meshIndex p) <> None ->
         In {| mesh := meshIndex p; instance := instanceIndex p;
               matrix := particleTransform g st' (now * 0.001) p |} writes)
  /\ (g = OK_SIGN ->
      scaleMultiplier st'
      = lerp (scaleMultiplier st) PHYSICS.OK_SCALE_MULTIPLIER 0.1)
  /\ (g <> OK_SIGN ->
      scaleMultiplier st' = lerp (scaleMultiplier st) 1 0.1
      /\ (1 < scaleMultiplier st ->
          1 < scaleMultiplier st' < scaleMultiplier st)).
Proof.
  intros st' writes.
  assert (Hparts : particles st' = particles st).
  { subst st'. rewrite stateAfter_eq, particleLogic_particles.
    apply cameraPhysics_amounts. }
  assert (Hscale : scaleMultiplier st'
                   = lerp (scaleMultiplier st)
                       (if HandGesture_eqb g OK_SIGN
                        then PHYSICS.OK_SCALE_MULTIPLIER else 1) 0.1).
  { subst st'. rewrite stateAfter_eq. unfold particleLogic.
    cbn [scaleMultiplier set_scaleMultiplier set_scatterAmount
           set_flowAmount].
    now destruct (cameraPhysics_amounts g st) as (_ & _ & -> & _). }
  assert (Hwrites : writes
                    = updateParticles g st' (now * 0.001) meshList
                        (particles st')) by reflexivity.
  split; [|split; [|split]].
  - intros wr Hwr. rewrite Hwrites in Hwr.
    apply updateParticles_In in Hwr as (p & _ & _ & ->). cbn [matrix].
    rewrite particleTransform_scale. split.
    + now intros ->.
    + intros Hg. now rewrite (proj2 (HandGesture_eqb_neq g OK_SIGN) Hg).
  - intros p Hp Hmesh. rewrite Hwrites. apply updateParticles_In.
    exists p. rewrite Hparts. auto.
  - intros ->. exact Hscale.
  - intros Hg. rewrite Hscale, (proj2 (HandGesture_eqb_neq g OK_SIGN) Hg).
    unfold lerp. split; [reflexivity|]. lra.
Qed.

(** The frame after an OK sign is released: the one particle is written
    with scale 1 while [scaleMultiplier] is 2.35. *)
Lemma scale_is_gated_by_gesture_witness :
  let st' := stateAfter NONE 0 afterOkSign 20 [1%nat] in
  (exists wr : Write,
      In wr (writesOf NONE 0 afterOkSign 20 [1%nat])
      /\ scale (matrix wr) = (1, 1, 1))
  /\ scaleMultiplier st' = lerp PHYSICS.OK_SCALE_MULTIPLIER 1 0.1
  /\ 1 < scaleMultiplier st' < PHYSICS.OK_SCALE_MULTIPLIER.
Proof.
  intro st'.
  destruct (scale_is_gated_by_gesture NONE 0 afterOkSign 20 [1%nat])
    as (Hwr & Hall & _ & Hother).
  assert (Hg : NONE <> OK_SIGN) by discriminate.
  split; [|split].
  - eexists. split.
    + apply (Hall {| raw := mkRaw 1 2 0 0.1 0.1 0.1;
                     meshIndex := 0; instanceIndex := 0 |}).
      * now left.
      * discriminate.
    + cbn [matrix]. rewrite particleTransform_scale. reflexivity.
  - apply (Hother Hg).
  - apply (Hother Hg). cbn. unfold PHYSICS.OK_SCALE_MULTIPLIER. lra.
Defined.

(** *** Flow and scatter *)

Lemma stateAfter_scatterAmount (g : HandGesture) (now : R)
    (st : PhysicsState) (c : R) (meshList : list nat) :
  scatterAmount (stateAfter g now st c meshList)
  = lerp (scatterAmount st)
      (if ltb (cameraZ (stateAfter g now st c meshList)) 10
          && HandGesture_eqb g OPEN_PALM
       then 1 else 0) scatterFactor.
Proof.
  rewrite stateAfter_eq. unfold particleLogic.
  cbn [scatterAmount cameraZ set_scaleMultiplier set_scatterAmount
         set_flowAmount].
  now destruct (cameraPhysics_amounts g st) as (-> & _).
Qed.

Lemma stateAfter_flowAmount (g : HandGesture) (now : R)
    (st : PhysicsState) (c : R) (meshList : list nat) :
  flowAmount (stateAfter g now st c meshList)
  = lerp (flowAmount st)
      (if HandGesture_eqb g OPEN_PALM then 1 else 0) flowFactor.
Proof.
  rewrite stateAfter_eq. unfold particleLogic.
  cbn [flowAmount set_scaleMultiplier set_scatterAmount set_flowAmount].
  now destruct (cameraPhysics_amounts g st) as (_ & -> & _).
Qed.

Lemma renderedAfter_eq (g : HandGesture) (now : R) (st : PhysicsState)
    (c : R) (meshList : list nat) :
  renderedAfter g now st c meshList
  = lerp c (cameraZ (stateAfter g now st c meshList)) 0.1.
Proof. reflexivity. Qed.

(** C4, as the loop has it.  On every frame [scatterAmount] is smoothed
    toward 1 exactly when the logical distance [cameraZ] reached on that
    frame, after the limits, is below 10 and the gesture read is
    [OPEN_PALM], and toward 0 otherwise; its factor 0.05 is larger than the
    factor 0.015 of [flowAmount]. *)
Theorem scatter_follows_logical_distance (g : HandGesture) (now : R)
    (st : PhysicsState) (c : R) (meshList : list nat) :
  let st' := stateAfter g now st c meshList in
  (cameraZ st' < 10 /\ g = OPEN_PALM ->
   scatterAmount st' = lerp (scatterAmount st) 1 scatterFactor)
  /\ (~ (cameraZ st' < 10 /\ g = OPEN_PALM) ->
      scatterAmount st' = lerp (scatterAmount st) 0 scatterFactor)
  /\ (g = OPEN_PALM -> flowAmount st' = lerp (flowAmount st) 1 flowFactor)
  /\ (g <> OPEN_PALM -> flowAmount st' = lerp (flowAmount st) 0 flowFactor)
  /\ flowFactor < scatterFactor.
Proof.
  intros st'.
  pose proof (stateAfter_scatterAmount g now st c meshList) as Hscatter.
  pose proof (stateAfter_flowAmount g now st c meshList) as Hflow.
  fold st' in Hscatter, Hflow.
  repeat split.
  - intros [Hnear ->]. rewrite Hscatter.
    now rewrite (proj2 (ltb_true _ _) Hnear).
  - intros Hnot. rewrite Hscatter.
    destruct (ltb (cameraZ st') 10) eqn:Hnear; [|reflexivity].
    destruct (HandGesture_eqb g OPEN_PALM) eqn:Hg; [|reflexivity].
    exfalso. apply Hnot. split.
    + now apply ltb_true.
    + now apply HandGesture_eqb_eq.
  - intros ->. exact Hflow.
  - intros Hg. rewrite Hflow.
    now rewrite (proj2 (HandGesture_eqb_neq g OPEN_PALM) Hg).
  - unfold flowFactor, scatterFactor. lra.
Qed.

(** A near frame of an open palm; a far one; a frame of a fist. *)
Lemma scatter_follows_logical_distance_witness :
  scatterAmount
    (stateAfter OPEN_PALM 0 (state (placedAt 8 0 12)) 12 [])
  = lerp 0 1 scatterFactor
  /\ scatterAmount
       (stateAfter OPEN_PALM 0 (state (placedAt 20 0 9)) 9 [])
     = lerp 0 0 scatterFactor
  /\ flowAmount (stateAfter OPEN_PALM 0 (state (placedAt 8 0 12)) 12 [])
     = lerp 0 1 flowFactor
  /\ flowAmount (stateAfter FIST 0 (state (placedAt 8 0 12)) 12 [])
     = lerp 0 0 flowFactor.
Proof.
  assert (Hnear : cameraZ (stateAfter OPEN_PALM 0
                             (state (placedAt 8 0 12)) 12 []) = 7.952).
  { rewrite stateAfter_eq, particleLogic_cameraZ.
    rewrite cameraPhysics_within; rewrite integrate_cameraZ; cbn;
      unfold CAMERA_LIMITS.MIN_Z, CAMERA_LIMITS.MAX_Z; lra. }
  assert (Hfar : cameraZ (stateAfter OPEN_PALM 0
                            (state (placedAt 20 0 9)) 9 []) = 19.952).
  { rewrite stateAfter_eq, particleLogic_cameraZ.
    rewrite cameraPhysics_within; rewrite integrate_cameraZ; cbn;
      unfold CAMERA_LIMITS.MIN_Z, CAMERA_LIMITS.MAX_Z; lra. }
  repeat split.
  - apply (scatter_follows_logical_distance OPEN_PALM 0
             (state (placedAt 8 0 12)) 12 []).
    split; [rewrite Hnear; lra|reflexivity].
  - apply (scatter_follows_logical_distance OPEN_PALM 0
             (state (placedAt 20 0 9)) 9 []).
    intros [Hlt _]. rewrite Hfar in Hlt. lra.
  - now apply (scatter_follows_logical_distance OPEN_PALM 0
                 (state (placedAt 8 0 12)) 12 []).
  - apply (scatter_follows_logical_distance FIST 0
             (state (placedAt 8 0 12)) 12 []). discriminate.
Defined.

(** Evaluation of the free trajectories on literals. *)
Ltac trajectory :=
  cbn [freeDistance freeVelocity force];
  unfold CAMERA_LIMITS.DEFAULT_Z, CAMERA_LIMITS.MIN_Z, CAMERA_LIMITS.MAX_Z,
    PHYSICS.PULL_ACCELERATION;
  lra.

(** *** Sustained gestures from the mounted component *)

Section Sustained.
Variable clock : nat -> R.

Lemma sustainedRun_S (g : HandGesture) (n : nat) :
  sustainedRun g clock (S n)
  = frames [(g, clock n)] (sustainedRun g clock n).
Proof.
  unfold sustainedRun, sustained.
  now rewrite seq_S, map_app, frames_app.
Qed.

Lemma mounted_cameraAt : cameraAt mounted CAMERA_LIMITS.DEFAULT_Z 0.
Proof. repeat split; cbn; congruence. Qed.

Lemma step_within (g : HandGesture) (now : R) (w : Refs) (z v : R) :
  cameraAt w z v ->
  CAMERA_LIMITS.MIN_Z <= z + (v + force g) * 0.96 <= CAMERA_LIMITS.MAX_Z ->
  cameraAt (frames [(g, now)] w)
    (z + (v + force g) * 0.96) ((v + force g) * 0.96).
Proof.
  intros (Hlive & Hz & Hv) Hin.
  destruct (frame_live g now w Hlive) as (c & _ & Hst & _ & Hlive').
  split; [exact Hlive'|]. rewrite Hst, stateAfter_eq.
  rewrite particleLogic_cameraZ, particleLogic_velocityZ.
  rewrite cameraPhysics_within
    by (rewrite integrate_cameraZ, Hz, Hv; exact Hin).
  now rewrite integrate_cameraZ, integrate_velocityZ, Hz, Hv.
Qed.

Lemma step_above (g : HandGesture) (now : R) (w : Refs) (z v : R) :
  cameraAt w z v ->
  z + (v + force g) * 0.96 > CAMERA_LIMITS.MAX_Z ->
  cameraAt (frames [(g, now)] w) CAMERA_LIMITS.MAX_Z 0.
Proof.
  intros (Hlive & Hz & Hv) Habove.
  destruct (frame_live g now w Hlive) as (c & _ & Hst & _ & Hlive').
  split; [exact Hlive'|]. rewrite Hst, stateAfter_eq.
  rewrite particleLogic_cameraZ, particleLogic_velocityZ.
  apply cameraPhysics_above. now rewrite integrate_cameraZ, Hz, Hv.
Qed.

Lemma step_below (g : HandGesture) (now : R) (w : Refs) (z v : R) :
  cameraAt w z v ->
  z + (v + force g) * 0.96 < CAMERA_LIMITS.MIN_Z ->
  cameraAt (frames [(g, now)] w) CAMERA_LIMITS.MIN_Z 0.
Proof.
  intros (Hlive & Hz & Hv) Hbelow.
  destruct (frame_live g now w Hlive) as (c & _ & Hst & _ & Hlive').
  split; [exact Hlive'|]. rewrite Hst, stateAfter_eq.
  rewrite particleLogic_cameraZ, particleLogic_velocityZ.
  apply cameraPhysics_below. now rewrite integrate_cameraZ, Hz, Hv.
Qed.

(** While the free trajectory stays inside the limits, the loop follows
    it. *)
Lemma sustainedRun_free (g : HandGesture) (n : nat) :
  (forall k : nat, (k <= n)%nat ->
      CAMERA_LIMITS.MIN_Z <= freeDistance g k <= CAMERA_LIMITS.MAX_Z) ->
  cameraAt (sustainedRun g clock n) (freeDistance g n) (freeVelocity g n).
Proof.
  induction n as [|n IH]; intros Hfree.
  - exact mounted_cameraAt.
  - rewrite sustainedRun_S. cbn [freeDistance freeVelocity].
    apply step_within.
    + apply IH. intros k Hk. apply Hfree. lia.
    + apply (Hfree (S n)). lia.
Qed.

Lemma freeVelocity_FIST_nonneg (n : nat) : 0 <= freeVelocity FIST n.
Proof.
  induction n as [|n IH]; cbn [freeVelocity force]; [lra|].
  unfold PHYSICS.PULL_ACCELERATION. lra.
Qed.

Lemma freeVelocity_OPEN_PALM_nonpos (n : nat) :
  freeVelocity OPEN_PALM n <= 0.
Proof.
  induction n as [|n IH]; cbn [freeVelocity force]; lra.
Qed.

Lemma freeDistance_FIST_mono (k n : nat) :
  (k <= n)%nat -> freeDistance FIST k <= freeDistance FIST n.
Proof.
  induction 1 as [|n Hle IH]; [lra|].
  pose proof (freeVelocity_FIST_nonneg (S n)).
  change (freeDistance FIST (S n))
    with (freeDistance FIST n + freeVelocity FIST (S n)). lra.
Qed.

Lemma freeDistance_OPEN_PALM_mono (k n : nat) :
  (k <= n)%nat -> freeDistance OPEN_PALM n <= freeDistance OPEN_PALM k.
Proof.
  induction 1 as [|n Hle IH]; [lra|].
  pose proof (freeVelocity_OPEN_PALM_nonpos (S n)).
  change (freeDistance OPEN_PALM (S n))
    with (freeDistance OPEN_PALM n + freeVelocity OPEN_PALM (S n)). lra.
Qed.

Lemma freeDistance_FIST_22 : freeDistance FIST 22 < CAMERA_LIMITS.MAX_Z.
Proof. trajectory. Qed.

Lemma freeDistance_FIST_23 : freeDistance FIST 23 > CAMERA_LIMITS.MAX_Z.
Proof. trajectory. Qed.

(** **** Sustained fist *)

Lemma sustainedRun_FIST_free (n : nat) :
  (n <= 22)%nat ->
  cameraAt (sustainedRun FIST clock n) (freeDistance FIST n) (freeVelocity FIST n).
Proof.
  intros Hn. apply sustainedRun_free. intros k Hk.
  pose proof (freeDistance_FIST_mono 0 k (Nat.le_0_l k)) as Hlo.
  pose proof (freeDistance_FIST_mono k 22 (Nat.le_trans _ _ _ Hk Hn)) as Hhi.
  pose proof freeDistance_FIST_22.
  cbn [freeDistance] in Hlo.
  revert Hlo. unfold CAMERA_LIMITS.DEFAULT_Z, CAMERA_LIMITS.MIN_Z. lra.
Qed.

Lemma sustainedRun_FIST_23 :
  cameraAt (sustainedRun FIST clock 23) CAMERA_LIMITS.MAX_Z 0.
Proof.
  rewrite sustainedRun_S.
  apply (step_above FIST (clock 22) _ (freeDistance FIST 22) (freeVelocity FIST 22)).
  - apply sustainedRun_FIST_free. lia.
  - exact freeDistance_FIST_23.
Qed.

Lemma sustainedRun_FIST_stays (n : nat) :
  (23 <= n)%nat -> cameraAt (sustainedRun FIST clock n) CAMERA_LIMITS.MAX_Z 0.
Proof.
  induction 1 as [|n Hle IH]; [exact sustainedRun_FIST_23|].
  rewrite sustainedRun_S.
  apply (step_above FIST (clock n) _ CAMERA_LIMITS.MAX_Z 0 IH).
  cbn [force]. unfold CAMERA_LIMITS.MAX_Z, PHYSICS.PULL_ACCELERATION. lra.
Qed.

(** A fist frame from a camera that is not moving in never moves it in. *)
Lemma fist_frame_rises (now : R) (w : Refs) (z v : R) :
  cameraAt w z v -> 0 <= v ->
  CAMERA_LIMITS.DEFAULT_Z <= z <= CAMERA_LIMITS.MAX_Z ->
  exists z' v' : R,
    cameraAt (frames [(FIST, now)] w) z' v'
    /\ 0 <= v'
    /\ CAMERA_LIMITS.DEFAULT_Z <= z' <= CAMERA_LIMITS.MAX_Z
    /\ z <= z' /\ (z < CAMERA_LIMITS.MAX_Z -> z < z').
Proof.
  intros Hat Hv Hz.
  destruct (Rlt_dec CAMERA_LIMITS.MAX_Z (z + (v + force FIST) * 0.96))
    as [Habove|Hwithin].
  - exists CAMERA_LIMITS.MAX_Z, 0. split.
    + now apply (step_above FIST now w z v).
    + revert Hz. unfold CAMERA_LIMITS.DEFAULT_Z, CAMERA_LIMITS.MAX_Z. lra.
  - revert Hwithin Hz. cbn [force].
    unfold CAMERA_LIMITS.DEFAULT_Z, CAMERA_LIMITS.MAX_Z,
      PHYSICS.PULL_ACCELERATION.
    intros Hwithin Hz.
    exists (z + (v + 0.1) * 0.96), ((v + 0.1) * 0.96). split.
    + apply (step_within FIST now w z v Hat). cbn [force].
      unfold CAMERA_LIMITS.MIN_Z, CAMERA_LIMITS.MAX_Z,
        PHYSICS.PULL_ACCELERATION. lra.
    + lra.
Qed.

Lemma sustainedRun_FIST_rising (n : nat) :
  exists z v : R,
    cameraAt (sustainedRun FIST clock n) z v /\ 0 <= v
    /\ CAMERA_LIMITS.DEFAULT_Z <= z <= CAMERA_LIMITS.MAX_Z.
Proof.
  induction n as [|n (z & v & Hat & Hv & Hz)].
  - exists CAMERA_LIMITS.DEFAULT_Z, 0. split; [exact mounted_cameraAt|].
    unfold CAMERA_LIMITS.DEFAULT_Z, CAMERA_LIMITS.MAX_Z. lra.
  - rewrite sustainedRun_S.
    destruct (fist_frame_rises (clock n) _ z v Hat Hv Hz)
      as (z' & v' & Hat' & Hv' & Hz' & _).
    now exists z', v'.
Qed.

(** C1, as the loop has it.  From the mounted component, 23 consecutive
    frames of [FIST] bring [cameraZ] to [MAX_Z], where it stays while the
    fist is held; each frame adds the positive constant [PULL_ACCELERATION]
    to [velocityZ] (friction then scales the sum while no limit applies),
    and no frame decreases [cameraZ]: it grows on every frame that starts
    below [MAX_Z]. *)
Theorem sustained_fist_reaches_MAX_Z :
  (forall n : nat, (23 <= n)%nat ->
      cameraZ (state (sustainedRun FIST clock n)) = CAMERA_LIMITS.MAX_Z)
  /\ 0 < PHYSICS.PULL_ACCELERATION
  /\ (forall n : nat,
         velocityZ (applyForce FIST (state (sustainedRun FIST clock n)))
         = velocityZ (state (sustainedRun FIST clock n))
           + PHYSICS.PULL_ACCELERATION)
  /\ (forall n : nat, (n < 22)%nat ->
         velocityZ (state (sustainedRun FIST clock (S n)))
         = (velocityZ (state (sustainedRun FIST clock n))
            + PHYSICS.PULL_ACCELERATION) * 0.96)
  /\ (forall n : nat,
         cameraZ (state (sustainedRun FIST clock n))
         <= cameraZ (state (sustainedRun FIST clock (S n)))
         /\ (cameraZ (state (sustainedRun FIST clock n)) < CAMERA_LIMITS.MAX_Z ->
             cameraZ (state (sustainedRun FIST clock n))
             < cameraZ (state (sustainedRun FIST clock (S n))))).
Proof.
  split; [|split; [|split; [|split]]].
  - intros n Hn. apply (sustainedRun_FIST_stays n Hn).
  - unfold PHYSICS.PULL_ACCELERATION. lra.
  - intros n. apply (applyForce_velocityZ FIST).
  - intros n Hn.
    destruct (sustainedRun_FIST_free n) as (_ & _ & ->); [lia|].
    destruct (sustainedRun_FIST_free (S n)) as (_ & _ & ->); [lia|].
    reflexivity.
  - intros n.
    destruct (sustainedRun_FIST_rising n) as (z & v & Hat & Hv & Hz).
    destruct (fist_frame_rises (clock n) _ z v Hat Hv Hz)
      as (z' & v' & Hat' & _ & _ & Hle & Hlt).
    rewrite sustainedRun_S.
    destruct Hat as (_ & -> & _). destruct Hat' as (_ & -> & _).
    split; assumption.
Qed.

(** **** Sustained open palm *)

Lemma freeDistance_OPEN_PALM_22 : 10.6 < freeDistance OPEN_PALM 22.
Proof. trajectory. Qed.

Lemma freeDistance_OPEN_PALM_23 : 9.9 < freeDistance OPEN_PALM 23 < 10.
Proof. split; trajectory. Qed.

Lemma sustainedRun_OPEN_PALM_free (n : nat) :
  (n <= 23)%nat ->
  cameraAt (sustainedRun OPEN_PALM clock n)
    (freeDistance OPEN_PALM n) (freeVelocity OPEN_PALM n).
Proof.
  intros Hn. apply sustainedRun_free. intros k Hk.
  pose proof (freeDistance_OPEN_PALM_mono 0 k (Nat.le_0_l k)) as Hhi.
  pose proof (freeDistance_OPEN_PALM_mono k 23
                (Nat.le_trans _ _ _ Hk Hn)) as Hlo.
  pose proof freeDistance_OPEN_PALM_23.
  cbn [freeDistance] in Hhi.
  revert Hhi.
  unfold CAMERA_LIMITS.DEFAULT_Z, CAMERA_LIMITS.MIN_Z, CAMERA_LIMITS.MAX_Z.
  lra.
Qed.

(** Up to frame 22 the rendered camera trails the logical one, which is
    still at 10 or more: nothing scatters. *)
Lemma sustainedRun_OPEN_PALM_lagging (n : nat) :
  (n <= 22)%nat -> lagging (sustainedRun OPEN_PALM clock n).
Proof.
  induction n as [|n IH]; intros Hn.
  - exists CAMERA_LIMITS.DEFAULT_Z. repeat split. cbn. lra.
  - destruct IH as (c & Hc & Hzc & Hs); [lia|].
    destruct (sustainedRun_OPEN_PALM_free n) as (Hlive & Hz & _); [lia|].
    destruct (sustainedRun_OPEN_PALM_free (S n)) as (_ & Hz' & _); [lia|].
    pose proof (freeDistance_OPEN_PALM_mono n (S n) (Nat.le_succ_diag_r n))
      as Hdown.
    pose proof (freeDistance_OPEN_PALM_mono (S n) 22 Hn) as Hfar.
    pose proof freeDistance_OPEN_PALM_22 as H22.
    rewrite sustainedRun_S in Hz' |- *.
    destruct (frame_live OPEN_PALM (clock n) _ Hlive) as (c0 & Hc0 & Hst & Hcam & _).
    rewrite Hc in Hc0. injection Hc0 as <-.
    rewrite Hst in Hz'.
    exists (renderedAfter OPEN_PALM (clock n) (state (sustainedRun OPEN_PALM clock n)) c
              (meshes (sustainedRun OPEN_PALM clock n))).
    split; [exact Hcam|]. rewrite Hst. split.
    + rewrite renderedAfter_eq, Hz'. unfold lerp. lra.
    + rewrite stateAfter_scatterAmount, Hz', Hs.
      rewrite (proj2 (ltb_false _ _)) by lra.
      unfold lerp. cbn [andb]. lra.
Qed.

End Sustained.

(** A frame of an open palm that brings the logical distance just below
    10 while the rendered camera still trails it. *)
Lemma open_palm_near_frame (now : R) (w : Refs) (c : R) :
  camera w = Some c -> renderer w = true -> scene w = true ->
  cameraZ (state w) <= c -> 10.6 < cameraZ (state w) ->
  scatterAmount (state w) = 0 ->
  9.9 < cameraZ (state (frames [(OPEN_PALM, now)] w)) < 10 ->
  exists (c' : R) (w' : Refs) (writes : list Write),
    animate OPEN_PALM now w = Some (w', writes)
    /\ camera w' = Some c'
    /\ 10 <= c /\ 10 <= c'
    /\ scatterAmount (state w') = 0.05
    /\ scatterRuleOfSpec OPEN_PALM c (scatterAmount (state w)) = 0
    /\ scatterRuleOfSpec OPEN_PALM c' (scatterAmount (state w)) = 0.
Proof.
  intros Hc Hr Hsc Hzc Hz Hs Hz'.
  assert (Hlive : live w) by (repeat split; congruence).
  destruct (frame_live OPEN_PALM now w Hlive) as (c0 & Hc0 & Hst & _).
  rewrite Hc in Hc0. injection Hc0 as <-. rewrite Hst in Hz'.
  pose proof (animate_live OPEN_PALM now w c Hc Hr Hsc) as Hstep.
  assert (Hc' : 10 <= renderedAfter OPEN_PALM now (state w) c (meshes w)).
  { rewrite renderedAfter_eq. unfold lerp. lra. }
  eexists. eexists. eexists. split; [exact Hstep|].
  cbn [camera state]. split; [reflexivity|].
  repeat split; try assumption; try lra.
  - rewrite stateAfter_scatterAmount, Hs.
    rewrite (proj2 (ltb_true _ _)) by lra.
    cbn [HandGesture_eqb andb]. unfold lerp, scatterFactor. lra.
  - unfold scatterRuleOfSpec. rewrite Hs.
    rewrite (proj2 (ltb_false _ _)) by lra.
    cbn [andb]. unfold lerp. lra.
  - unfold scatterRuleOfSpec. rewrite Hs.
    rewrite (proj2 (ltb_false _ _)) by lra.
    cbn [andb]. unfold lerp. lra.
Qed.

(** Frame 23 is the one that reaches [MAX_Z]. *)
Lemma sustained_fist_reaches_MAX_Z_witness :
  cameraZ (state (sustainedRun FIST steadyClock 23)) = CAMERA_LIMITS.MAX_Z
  /\ cameraZ (state (sustainedRun FIST steadyClock 22))
     < cameraZ (state (sustainedRun FIST steadyClock 23)).
Proof.
  destruct (sustained_fist_reaches_MAX_Z steadyClock) as (Hreach & _ & _ & _ & Hrise).
  split.
  - apply (Hreach 23%nat). lia.
  - apply (Hrise 22%nat).
    destruct (sustainedRun_FIST_free steadyClock 22) as (_ & -> & _); [lia|].
    exact freeDistance_FIST_22.
Defined.

(** C1 as the specification states it fails: the first fist frame moves
    [cameraZ] from 20 to 20.096, away from [MIN_Z], and no number of fist
    frames brings it to [MIN_Z]. *)
Lemma sustained_fist_never_reaches_MIN_Z :
  cameraZ (state (sustainedRun FIST steadyClock 0)) = 20
  /\ cameraZ (state (sustainedRun FIST steadyClock 1)) = 20.096
  /\ ~ (exists n : nat,
           cameraZ (state (sustainedRun FIST steadyClock n)) = CAMERA_LIMITS.MIN_Z).
Proof.
  split; [reflexivity|split].
  - destruct (sustainedRun_FIST_free steadyClock 1) as (_ & -> & _); [lia|].
    trajectory.
  - intros (n & Hn).
    destruct (sustainedRun_FIST_rising steadyClock n) as (z & v & Hat & _ & Hz).
    destruct Hat as (_ & Hz' & _). rewrite Hz' in Hn. subst z.
    revert Hz. unfold CAMERA_LIMITS.DEFAULT_Z, CAMERA_LIMITS.MIN_Z. lra.
Qed.

(** C4 as the specification states it fails on frame 23 of an open palm
    held from the mounted component: the rendered camera distance is at 10
    or more before and after the frame, so the rule on the rendered
    distance smooths toward 0 and leaves [scatterAmount] at 0, while the
    loop smooths it toward 1, to 0.05. *)
Lemma scatter_ignores_rendered_distance :
  exists (c c' : R) (w' : Refs) (writes : list Write),
    camera (sustainedRun OPEN_PALM steadyClock 22) = Some c
    /\ scatterAmount (state (sustainedRun OPEN_PALM steadyClock 22)) = 0
    /\ animate OPEN_PALM (steadyClock 22) (sustainedRun OPEN_PALM steadyClock 22) = Some (w', writes)
    /\ camera w' = Some c'
    /\ 10 <= c /\ 10 <= c'
    /\ scatterAmount (state w') = 0.05
    /\ scatterRuleOfSpec OPEN_PALM c
         (scatterAmount (state (sustainedRun OPEN_PALM steadyClock 22))) = 0
    /\ scatterRuleOfSpec OPEN_PALM c'
         (scatterAmount (state (sustainedRun OPEN_PALM steadyClock 22))) = 0.
Proof.
  destruct (sustainedRun_OPEN_PALM_lagging steadyClock 22 (Nat.le_refl 22))
    as (c & Hc & Hzc & Hs).
  destruct (sustainedRun_OPEN_PALM_free steadyClock 22) as ((_ & Hr & Hsc) & Hz & _);
    [lia|].
  destruct (sustainedRun_OPEN_PALM_free steadyClock 23) as (_ & Hz' & _); [lia|].
  pose proof freeDistance_OPEN_PALM_22 as H22.
  pose proof freeDistance_OPEN_PALM_23 as H23.
  rewrite <- Hz in H22. rewrite <- Hz' in H23.
  rewrite sustainedRun_S in H23.
  destruct (open_palm_near_frame (steadyClock 22) (sustainedRun OPEN_PALM steadyClock 22) c
              Hc Hr Hsc Hzc H22 Hs H23)
    as (c' & w' & writes & Hstep & Hrest).
  exists c, c', w', writes. tauto.
Qed.

End Physics.

(** * Further properties of the classifier *)

Section ClassifierMore.
Import Gesture GestureSpec MoreSpec App.

Lemma forall_fingers (P : fingerName -> Prop) :
  (forall f, P f) <-> P INDEX /\ P MIDDLE /\ P RING /\ P PINKY.
Proof.
  split; [intros H; auto|]. intros (Hi & Hm & Hr & Hp) f.
  destruct f; assumption.
Qed.

Lemma exists_finger (P : fingerName -> Prop) :
  (exists f, P f) <-> P INDEX \/ P MIDDLE \/ P RING \/ P PINKY.
Proof.
  split.
  - intros [f Hf]. destruct f; auto.
  - intros [H|[H|[H|H]]]; eauto.
Qed.

(** X1.  The decision table of [analyzeGesture] on a full frame. *)
Theorem gesture_decision_table (l : NormalizedLandmarkList) :
  frame21 l ->
  let g := result (analyzeGesture (Some l)) in
  (g = Returned OK_SIGN <->
     thumbIndexDistance l < 0.05
     /\ extended l MIDDLE /\ extended l RING /\ extended l PINKY)
  /\ (g = Returned FIST <-> forall f, ~ extended l f)
  /\ (g = Returned OPEN_PALM <->
        (forall f, extended l f) /\ 0.05 <= thumbIndexDistance l)
  /\ (g = Returned NONE <->
        (exists f, extended l f) /\ (exists f, ~ extended l f)
        /\ ~ (thumbIndexDistance l < 0.05
              /\ extended l MIDDLE /\ extended l RING /\ extended l PINKY)).
Proof.
  intros Hl g. subst g.
  rewrite analyzeGesture_frame21 by assumption. cbn [result].
  rewrite !forall_fingers, !exists_finger. unfold classification.
  destruct (ltb (thumbIndexDistance l) 0.05) eqn:Hpinch;
    [apply ltb_true in Hpinch|apply ltb_false in Hpinch];
    destruct (extendedb l INDEX) eqn:Hi;
    [apply extendedb_true in Hi|apply extendedb_false in Hi
    |apply extendedb_true in Hi|apply extendedb_false in Hi];
    (destruct (extendedb l MIDDLE) eqn:Hm;
     [apply extendedb_true in Hm|apply extendedb_false in Hm]);
    (destruct (extendedb l RING) eqn:Hr;
     [apply extendedb_true in Hr|apply extendedb_false in Hr]);
    (destruct (extendedb l PINKY) eqn:Hp;
     [apply extendedb_true in Hp|apply extendedb_false in Hp]);
    cbn [andb negb];
    repeat split; intros; try discriminate; try tauto; try lra;
    try (exfalso; intuition (try discriminate; try lra)).
Qed.

(** Evaluation of the vocabulary on frames of the x axis. *)
Ltac axis_eval :=
  unfold extended, wristToTip, wristToPip, thumbIndexDistance, palmSize,
    joint, axisFrame, palmFrame;
  cbn [nth tipIndex pipIndex HAND_INDICES.WRIST HAND_INDICES.THUMB_TIP
       HAND_INDICES.INDEX_TIP HAND_INDICES.INDEX_PIP
       HAND_INDICES.MIDDLE_TIP HAND_INDICES.MIDDLE_PIP
       HAND_INDICES.MIDDLE_MCP
       HAND_INDICES.RING_TIP HAND_INDICES.RING_PIP
       HAND_INDICES.PINKY_TIP HAND_INDICES.PINKY_PIP];
  rewrite ?distance_onAxis;
  unfold Rabs;
  repeat match goal with
         | |- context [Rcase_abs ?v] => destruct (Rcase_abs v)
         end;
  try lra.

(** An open hand with the thumb away from the index; and a pointing hand,
    index alone extended. *)
Lemma gesture_decision_table_witness :
  result (analyzeGesture (Some (axisFrame 0.1 0.3 0.6 0.3 0.6)))
  = Returned OPEN_PALM
  /\ result (analyzeGesture (Some (axisFrame 0.1 0.3 0.6 0.3 0.2)))
     = Returned NONE.
Proof.
  split.
  - apply (gesture_decision_table (axisFrame 0.1 0.3 0.6 0.3 0.6));
      [reflexivity|].
    split; [intros f; destruct f|]; axis_eval.
  - apply (gesture_decision_table (axisFrame 0.1 0.3 0.6 0.3 0.2));
      [reflexivity|].
    split; [exists INDEX|split; [exists MIDDLE|intros (_ & H & _)]];
      revert H || idtac; axis_eval.
Defined.

(** *** Frames of another length *)

Lemma isFingerExtended_full (l : NormalizedLandmarkList) (f : fingerName) :
  (21 <= List.length l)%nat ->
  isFingerExtended l f = mkEval 2 (Returned (extendedb l f)).
Proof.
  intros Hl. unfold isFingerExtended.
  rewrite !at_index_joint
    by (pose proof (tipIndex_lt f); pose proof (pipIndex_lt f);
        unfold HAND_INDICES.WRIST; lia).
  reflexivity.
Qed.

Lemma analyzeGesture_full (l : NormalizedLandmarkList) :
  (21 <= List.length l)%nat ->
  analyzeGesture (Some l) =
    mkEval 9
      (Returned
         (classification (thumbIndexDistance l) (extendedb l INDEX)
            (extendedb l MIDDLE) (extendedb l RING) (extendedb l PINKY))).
Proof.
  intros Hl. unfold analyzeGesture.
  rewrite !isFingerExtended_full by assumption.
  destruct (Nat.eqb_spec (List.length l) 0) as [H0|_]; [lia|].
  rewrite !at_index_joint
    by (unfold HAND_INDICES.THUMB_TIP, HAND_INDICES.INDEX_TIP; lia).
  rewrite getDistance_defined.
  unfold bind, classification, thumbIndexDistance; cbn [result distances].
  repeat match goal with
         | |- context [if ?c then _ else _] => destruct c
         end; reflexivity.
Qed.

Lemma joint_firstn (n i : nat) (l : NormalizedLandmarkList) :
  (i < n)%nat -> joint (firstn n l) i = joint l i.
Proof.
  unfold joint. revert i l. induction n as [|n IH]; intros i l Hi; [lia|].
  destruct l as [|p l]; [reflexivity|]. destruct i as [|i]; [reflexivity|].
  cbn [firstn nth]. apply IH. lia.
Qed.

(** X2.  A frame that is not empty and has fewer than 21 landmarks makes
    [analyzeGesture] throw; from 21 landmarks on it returns, and the
    landmarks after the 21st are not read. *)
Theorem partial_frame_throws (l : NormalizedLandmarkList) :
  l <> [] ->
  (result (analyzeGesture (Some l)) = TypeError
   <-> (List.length l < 21)%nat)
  /\ ((21 <= List.length l)%nat ->
      analyzeGesture (Some l) = analyzeGesture (Some (firstn 21 l))).
Proof.
  intros Hne. split; [split|].
  - intros Hthrow.
    destruct (Nat.lt_ge_cases (List.length l) 21) as [Hlt|Hge];
      [exact Hlt|].
    rewrite (analyzeGesture_full l Hge) in Hthrow. discriminate.
  - intros Hlt. destruct l as [|p0 l]; [congruence|]. clear Hne.
    do 20 (destruct l as [|? l]; [reflexivity|]).
    cbn [List.length] in Hlt. lia.
  - intros Hge.
    assert (H21 : (21 <= List.length (firstn 21 l))%nat)
      by (rewrite length_firstn; lia).
    rewrite (analyzeGesture_full l Hge). symmetry.
    etransitivity; [exact (analyzeGesture_full _ H21)|].
    unfold thumbIndexDistance, extendedb, wristToTip, wristToPip.
    rewrite !joint_firstn
      by (first [apply tipIndex_lt | apply pipIndex_lt | cbv; lia]).
    reflexivity.
Qed.

(** A frame of eight landmarks throws; one of 22 is read as its first 21. *)
Lemma partial_frame_throws_witness :
  result (analyzeGesture (Some (firstn 8 (palmFrame 0.3)))) = TypeError
  /\ analyzeGesture (Some (palmFrame 0.3 ++ [onAxis 9]))
     = analyzeGesture (Some (palmFrame 0.3)).
Proof.
  split.
  - apply (partial_frame_throws (firstn 8 (palmFrame 0.3)));
      [discriminate|cbn; lia].
  - apply (partial_frame_throws (palmFrame 0.3 ++ [onAxis 9]));
      [discriminate|cbn; lia].
Defined.

(** *** The proximity score *)

(** X3.  [estimateHandProximity] throws on [null] and on a frame of fewer than
    ten landmarks, the empty one included; on any longer frame it makes one
    distance computation and returns a score of [0, 1], which on palm
    sizes of [0.1, 0.5] is the linear remap [(palmSize - 0.1) / 0.4]. *)
Theorem proximity_total_on_palm :
  result (estimateHandProximity None) = TypeError
  /\ (forall l : NormalizedLandmarkList,
         (List.length l < 10)%nat ->
         result (estimateHandProximity (Some l)) = TypeError)
  /\ (forall l : NormalizedLandmarkList,
         (10 <= List.length l)%nat ->
         exists s : R,
           estimateHandProximity (Some l) = mkEval 1 (Returned s)
           /\ 0 <= s <= 1
           /\ (0.1 <= palmSize l <= 0.5 -> s = (palmSize l - 0.1) / 0.4)).
Proof.
  split; [reflexivity|split].
  - intros l Hl.
    do 10 (destruct l as [|? l]; [reflexivity|]).
    cbn [List.length] in Hl. lia.
  - intros l Hl. unfold estimateHandProximity.
    rewrite !at_index_joint
      by (unfold HAND_INDICES.WRIST, HAND_INDICES.MIDDLE_MCP; lia).
    rewrite getDistance_defined. fold (palmSize l).
    eexists. split; [reflexivity|]. split; [split|].
    + apply Rmin_glb; [apply Rmax_r|lra].
    + apply Rmin_r.
    + intros [Hlo Hhi]. rewrite Rmax_left by lra. apply Rmin_left. lra.
Qed.

(** A frame of nine landmarks; and palm size 0.3, scored 0.5. *)
Lemma proximity_total_on_palm_witness :
  result (estimateHandProximity (Some (firstn 9 (palmFrame 0.3))))
  = TypeError
  /\ exists s : R,
       estimateHandProximity (Some (palmFrame 0.3)) = mkEval 1 (Returned s)
       /\ 0 <= s <= 1 /\ s = (palmSize (palmFrame 0.3) - 0.1) / 0.4.
Proof.
  destruct proximity_total_on_palm as (_ & Hshort & Hlong). split.
  - apply (Hshort (firstn 9 (palmFrame 0.3))). cbn. lia.
  - destruct (Hlong (palmFrame 0.3)) as (s & Hs & Hrange & Hlin);
      [cbn; lia|].
    exists s. repeat split; try tauto. apply Hlin. split; axis_eval.
Defined.

(** *** Moving and magnifying the hand *)

Lemma distance_moved (theta dx dy : R) (a b : Landmark) :
  distance (moved theta dx dy a) (moved theta dx dy b) = distance a b.
Proof.
  unfold distance, moved. cbn [Gesture.x Gesture.y]. f_equal.
  pose proof (sin2_cos2 theta) as H. unfold Rsqr in H.
  transitivity
    ((sin theta * sin theta + cos theta * cos theta)
     * ((Gesture.x a - Gesture.x b) ^ 2 + (Gesture.y a - Gesture.y b) ^ 2));
    [ring|]. rewrite H. ring.
Qed.

Lemma getDistance_moved (theta dx dy : R) (a b : option Landmark) :
  getDistance (option_map (moved theta dx dy) a)
    (option_map (moved theta dx dy) b)
  = getDistance a b.
Proof.
  destruct a as [a|], b as [b|]; cbn [option_map]; try reflexivity.
  rewrite !getDistance_defined. now rewrite distance_moved.
Qed.

(** X4.  Turning the hand about the origin of the image plane and shifting it
    changes neither the gesture nor the proximity score, on a frame of any
    length (errors included). *)
Theorem rigid_motion_changes_nothing (theta dx dy : R)
    (l : NormalizedLandmarkList) :
  analyzeGesture (Some (map (moved theta dx dy) l))
  = analyzeGesture (Some l)
  /\ estimateHandProximity (Some (map (moved theta dx dy) l))
     = estimateHandProximity (Some l).
Proof.
  unfold analyzeGesture, estimateHandProximity, isFingerExtended, at_index.
  rewrite length_map, !nth_error_map, !getDistance_moved.
  split; reflexivity.
Qed.

Lemma distance_scaled (k : R) (a b : Landmark) :
  0 <= k -> distance (scaled k a) (scaled k b) = k * distance a b.
Proof.
  intros Hk. unfold distance, scaled. cbn [Gesture.x Gesture.y].
  replace ((k * Gesture.x a - k * Gesture.x b) ^ 2
           + (k * Gesture.y a - k * Gesture.y b) ^ 2)
    with (Rsqr k * ((Gesture.x a - Gesture.x b) ^ 2
                    + (Gesture.y a - Gesture.y b) ^ 2))
    by (unfold Rsqr; ring).
  rewrite sqrt_mult_alt by apply Rle_0_sqr.
  now rewrite sqrt_Rsqr.
Qed.

Lemma joint_map (m : Landmark -> Landmark) (l : NormalizedLandmarkList)
    (i : nat) :
  (i < List.length l)%nat -> joint (map m l) i = m (joint l i).
Proof.
  intros Hi. unfold joint.
  rewrite (nth_indep (map m l) (mkLandmark 0 0 0 None)
             (m (mkLandmark 0 0 0 None)))
    by (now rewrite length_map).
  apply map_nth.
Qed.

Lemma extendedb_scaled (k : R) (l : NormalizedLandmarkList)
    (f : fingerName) :
  0 < k -> frame21 l ->
  extendedb (map (scaled k) l) f = extendedb l f.
Proof.
  intros Hk Hl. unfold frame21 in Hl.
  unfold extendedb, wristToTip, wristToPip.
  rewrite !joint_map
    by (rewrite Hl; first [apply tipIndex_lt | apply pipIndex_lt
                          | cbv; lia]).
  rewrite !distance_scaled by lra.
  set (t := distance _ _). set (q := distance _ _).
  destruct (gtb t q) eqn:Hg.
  - apply gtb_true in Hg. apply gtb_true. nra.
  - apply gtb_false in Hg. apply gtb_false. nra.
Qed.

(** X5.  A hand seen larger or smaller by a factor [k > 0] is a fist exactly
    when the original is; magnified ([k >= 1]) with the thumb tip at 0.05
    or more from the index tip it keeps its gesture, and its proximity
    score does not decrease. *)
Theorem hand_size_and_gesture (k : R) (l : NormalizedLandmarkList) :
  0 < k -> frame21 l ->
  (result (analyzeGesture (Some (map (scaled k) l))) = Returned FIST
   <-> result (analyzeGesture (Some l)) = Returned FIST)
  /\ (1 <= k -> 0.05 <= thumbIndexDistance l ->
      analyzeGesture (Some (map (scaled k) l)) = analyzeGesture (Some l))
  /\ (1 <= k ->
      exists s s' : R,
        result (estimateHandProximity (Some l)) = Returned s
        /\ result (estimateHandProximity (Some (map (scaled k) l)))
           = Returned s'
        /\ s <= s').
Proof.
  intros Hk Hl.
  assert (Hl' : frame21 (map (scaled k) l))
    by (unfold frame21; now rewrite length_map).
  assert (Hthumb : thumbIndexDistance (map (scaled k) l)
                   = k * thumbIndexDistance l).
  { unfold thumbIndexDistance.
    rewrite !joint_map by (rewrite Hl; cbv; lia).
    apply distance_scaled. lra. }
  assert (Hpalm : palmSize (map (scaled k) l) = k * palmSize l).
  { unfold palmSize.
    rewrite !joint_map by (rewrite Hl; cbv; lia).
    apply distance_scaled. lra. }
  assert (Ha' : analyzeGesture (Some (map (scaled k) l))
                = mkEval 9
                    (Returned
                       (classification
                          (thumbIndexDistance (map (scaled k) l))
                          (extendedb l INDEX) (extendedb l MIDDLE)
                          (extendedb l RING) (extendedb l PINKY)))).
  { etransitivity; [exact (analyzeGesture_frame21 _ Hl')|].
    now rewrite !extendedb_scaled by assumption. }
  assert (He' : estimateHandProximity (Some (map (scaled k) l))
                = mkEval 1
                    (Returned
                       (Rmin (Rmax ((k * palmSize l - 0.1) / 0.4) 0) 1))).
  { etransitivity; [exact (estimateHandProximity_frame21 _ Hl')|].
    now rewrite Hpalm. }
  rewrite Ha', He', !(analyzeGesture_frame21 _ Hl). cbn [result].
  split; [|split].
  - unfold classification.
    destruct (ltb (thumbIndexDistance (map (scaled k) l)) 0.05),
      (ltb (thumbIndexDistance l) 0.05),
      (extendedb l INDEX), (extendedb l MIDDLE), (extendedb l RING),
      (extendedb l PINKY); cbn [andb negb]; split; congruence.
  - intros Hk1 Hfar. unfold classification.
    rewrite Hthumb.
    rewrite (proj2 (ltb_false (thumbIndexDistance l) 0.05)) by lra.
    rewrite (proj2 (ltb_false (k * thumbIndexDistance l) 0.05)) by nra.
    reflexivity.
  - intros Hk1.
    rewrite (estimateHandProximity_frame21 _ Hl).
    cbn [result]. do 2 eexists. split; [reflexivity|].
    split; [reflexivity|].
    apply Rle_min_compat_r, Rle_max_compat_r.
    assert (0 <= palmSize l) by apply sqrt_pos. nra.
Qed.

(** The fist on the axis seen twice as large; the open hand too. *)
Lemma hand_size_and_gesture_witness :
  result (analyzeGesture
            (Some (map (scaled 2) (axisFrame 0.2 0.3 0.2 0.3 0.3))))
  = Returned FIST
  /\ analyzeGesture (Some (map (scaled 2) (axisFrame 0.1 0.3 0.6 0.3 0.6)))
     = analyzeGesture (Some (axisFrame 0.1 0.3 0.6 0.3 0.6)).
Proof.
  split.
  - apply (hand_size_and_gesture 2 (axisFrame 0.2 0.3 0.2 0.3 0.3));
      [lra|reflexivity|].
    rewrite analyzeGesture_frame21 by reflexivity. cbn [result].
    unfold classification.
    rewrite (proj2 (extendedb_false _ INDEX)) by axis_eval.
    rewrite (proj2 (extendedb_false _ MIDDLE)) by axis_eval.
    rewrite (proj2 (extendedb_false _ RING)) by axis_eval.
    rewrite (proj2 (extendedb_false _ PINKY)) by axis_eval.
    now rewrite !andb_false_r.
  - apply (hand_size_and_gesture 2 (axisFrame 0.1 0.3 0.6 0.3 0.6));
      [lra|reflexivity|lra|axis_eval].
Defined.

(** *** The distance *)

Lemma distance_sqr (a b : Landmark) :
  0 <= distance a b
  /\ distance a b * distance a b
     = (Gesture.x a - Gesture.x b) ^ 2 + (Gesture.y a - Gesture.y b) ^ 2.
Proof.
  unfold distance. split; [apply sqrt_pos|].
  apply sqrt_sqrt. apply Rplus_le_le_0_compat; apply pow2_ge_0.
Qed.

(** X6.  On two landmarks [getDistance] returns a distance of the image plane:
    symmetric, never negative, zero exactly when x and y agree, and within
    the triangle inequality. *)
Theorem getDistance_is_a_plane_metric (a b c : Landmark) :
  getDistance (Some a) (Some b) = mkEval 1 (Returned (distance a b))
  /\ distance a b = distance b a
  /\ 0 <= distance a b
  /\ (distance a b = 0 <-> sameXY a b)
  /\ distance a c <= distance a b + distance b c.
Proof.
  split; [reflexivity|].
  destruct (distance_sqr a b) as [Hab Hab2].
  destruct (distance_sqr b a) as [Hba Hba2].
  destruct (distance_sqr b c) as [Hbc Hbc2].
  destruct (distance_sqr a c) as [Hac Hac2].
  split; [|split; [|split]].
  - nra.
  - exact Hab.
  - unfold sameXY. split.
    + intros H0. rewrite H0 in Hab2.
      assert (Hx : 0 <= (Gesture.x a - Gesture.x b) ^ 2) by apply pow2_ge_0.
      assert (Hy : 0 <= (Gesture.y a - Gesture.y b) ^ 2) by apply pow2_ge_0.
      split; nra.
    + intros [Hx Hy]. rewrite Hx, Hy in Hab2. nra.
  - set (u1 := Gesture.x a - Gesture.x b) in *.
    set (u2 := Gesture.y a - Gesture.y b) in *.
    set (v1 := Gesture.x b - Gesture.x c) in *.
    set (v2 := Gesture.y b - Gesture.y c) in *.
    replace ((Gesture.x a - Gesture.x c) ^ 2
             + (Gesture.y a - Gesture.y c) ^ 2)
      with ((u1 + v1) ^ 2 + (u2 + v2) ^ 2) in Hac2
      by (unfold u1, u2, v1, v2; ring).
    assert (Hcs : u1 * v1 + u2 * v2 <= distance a b * distance b c).
    { destruct (Rle_lt_dec (u1 * v1 + u2 * v2)
                  (distance a b * distance b c)) as [H|H]; [exact H|].
      exfalso.
      assert (Hpos : 0 <= distance a b * distance b c) by nra.
      assert (Hsq : (distance a b * distance b c)
                    * (distance a b * distance b c)
                    = (u1 ^ 2 + u2 ^ 2) * (v1 ^ 2 + v2 ^ 2)).
      { rewrite <- Hab2, <- Hbc2. ring. }
      pose proof (Rle_0_sqr (u1 * v2 - u2 * v1)) as Hdet.
      unfold Rsqr in Hdet. nra. }
    apply Rnot_lt_le. intros Hlt. nra.
Qed.

(** *** The callback of the pose source *)

(** X7.  [onResults] classifies the first hand only: the other hands do not
    matter; without a hand, or with a first hand that has no landmark, it
    sets [NONE] and measures nothing; with a first hand of 21 landmarks it
    sets a gesture after nine distance computations; a first hand of 1 to
    20 landmarks makes it throw. *)
Theorem onResults_reads_first_hand :
  onResults (mkResults None) = ret NONE
  /\ onResults (mkResults (Some [])) = ret NONE
  /\ (forall others, onResults (mkResults (Some ([] :: others))) = ret NONE)
  /\ (forall hand others,
         frame21 hand ->
         exists g : HandGesture,
           onResults (mkResults (Some (hand :: others)))
           = mkEval 9 (Returned g)
           /\ onResults (mkResults (Some [hand])) = mkEval 9 (Returned g))
  /\ (forall hand others,
         hand <> [] -> (List.length hand < 21)%nat ->
         result (onResults (mkResults (Some (hand :: others)))) = TypeError).
Proof.
  split; [reflexivity|split; [reflexivity|split; [reflexivity|split]]].
  - intros hand others Hl. unfold onResults. cbn [multiHandLandmarks].
    rewrite analyzeGesture_frame21 by assumption. eexists. split; reflexivity.
  - intros hand others Hne Hshort. unfold onResults.
    cbn [multiHandLandmarks].
    destruct hand as [|p0 hand]; [congruence|]. clear Hne.
    do 20 (destruct hand as [|? hand]; [reflexivity|]).
    cbn [List.length] in Hshort. lia.
Qed.

(** Two hands, the first a fist: nine computations whatever the second. *)
Lemma onResults_reads_first_hand_witness :
  exists g : HandGesture,
    onResults
      (mkResults (Some [axisFrame 0.2 0.3 0.2 0.3 0.3; palmFrame 0.3]))
    = mkEval 9 (Returned g)
    /\ onResults (mkResults (Some [axisFrame 0.2 0.3 0.2 0.3 0.3]))
       = mkEval 9 (Returned g).
Proof.
  destruct onResults_reads_first_hand as (_ & _ & _ & Hfull & _).
  apply (Hfull (axisFrame 0.2 0.3 0.2 0.3 0.3) [palmFrame 0.3]).
  reflexivity.
Defined.

End ClassifierMore.

(** * Further properties of the physics state machine *)

Section PhysicsMore.
Import Scene SceneSpec MoreSpec.

Lemma frames_invariant (P : Refs -> Prop) :
  (forall g now w w' writes,
      animate g now w = Some (w', writes) -> P w -> P w') ->
  forall (inputs : list (HandGesture * R)) (w : Refs),
    P w -> P (frames inputs w).
Proof.
  intros Hstep inputs. induction inputs as [|[g now] rest IH]; intros w Hw;
    [exact Hw|].
  cbn [frames].
  destruct (animate g now w) as [[w' writes]|] eqn:Ha; [|exact Hw].
  apply IH. exact (Hstep g now w w' writes Ha Hw).
Qed.

Lemma stateAfter_scaleMultiplier (g : HandGesture) (now : R)
    (st : PhysicsState) (c : R) (meshList : list nat) :
  scaleMultiplier (stateAfter g now st c meshList)
  = lerp (scaleMultiplier st)
      (if HandGesture_eqb g OK_SIGN
       then PHYSICS.OK_SCALE_MULTIPLIER else 1) 0.1.
Proof.
  rewrite stateAfter_eq. unfold particleLogic.
  cbn [scaleMultiplier set_scaleMultiplier set_scatterAmount
         set_flowAmount].
  now destruct (cameraPhysics_amounts g st) as (_ & _ & -> & _).
Qed.

Lemma stateAfter_particles (g : HandGesture) (now : R)
    (st : PhysicsState) (c : R) (meshList : list nat) :
  particles (stateAfter g now st c meshList) = particles st.
Proof.
  rewrite stateAfter_eq, particleLogic_particles.
  apply cameraPhysics_amounts.
Qed.

Lemma stateAfter_cameraZ (g : HandGesture) (now : R)
    (st : PhysicsState) (c : R) (meshList : list nat) :
  cameraZ (stateAfter g now st c meshList) = cameraZ (cameraPhysics g st).
Proof. reflexivity. Qed.

Lemma stateAfter_velocityZ (g : HandGesture) (now : R)
    (st : PhysicsState) (c : R) (meshList : list nat) :
  velocityZ (stateAfter g now st c meshList)
  = velocityZ (cameraPhysics g st).
Proof. reflexivity. Qed.

(** The three outcomes of the limits, in one statement. *)
Lemma cameraPhysics_cases (g : HandGesture) (st : PhysicsState) :
  let z1 := cameraZ st + (velocityZ st + force g) * 0.96 in
  (CAMERA_LIMITS.MAX_Z < z1
   /\ cameraZ (cameraPhysics g st) = CAMERA_LIMITS.MAX_Z
   /\ velocityZ (cameraPhysics g st) = 0)
  \/ (z1 < CAMERA_LIMITS.MIN_Z
      /\ cameraZ (cameraPhysics g st) = CAMERA_LIMITS.MIN_Z
      /\ velocityZ (cameraPhysics g st) = 0)
  \/ (CAMERA_LIMITS.MIN_Z <= z1 <= CAMERA_LIMITS.MAX_Z
      /\ cameraZ (cameraPhysics g st) = z1
      /\ velocityZ (cameraPhysics g st) = (velocityZ st + force g) * 0.96).
Proof.
  intros z1.
  assert (Hz1 : cameraZ (integrate g st) = z1) by apply integrate_cameraZ.
  destruct (Rlt_dec CAMERA_LIMITS.MAX_Z z1) as [Ha|Ha].
  - left. split; [exact Ha|]. apply cameraPhysics_above. now rewrite Hz1.
  - destruct (Rlt_dec z1 CAMERA_LIMITS.MIN_Z) as [Hb|Hb].
    + right; left. split; [exact Hb|]. apply cameraPhysics_below.
      now rewrite Hz1.
    + right; right. split; [lra|].
      rewrite cameraPhysics_within by (rewrite Hz1; lra).
      now rewrite integrate_cameraZ, integrate_velocityZ.
Qed.

Lemma force_range (g : HandGesture) : - 0.05 <= force g <= 0.1.
Proof. destruct g; cbn; unfold PHYSICS.PULL_ACCELERATION; lra. Qed.

(** X8.  [flowAmount] and [scatterAmount] never leave [0, 1], and
    [scaleMultiplier] never leaves [1, OK_SCALE_MULTIPLIER], whatever the
    gestures and clock values of the frames. *)
Theorem amounts_stay_in_range (inputs : list (HandGesture * R))
    (w : Refs) :
  amountsInRange (state w) -> amountsInRange (state (frames inputs w)).
Proof.
  revert inputs w.
  apply (frames_invariant (fun w => amountsInRange (state w))).
  intros g now w w' writes Ha (Hf & Hs & Hm).
  apply animate_some in Ha as (c & _ & -> & _).
  unfold amountsInRange.
  rewrite stateAfter_flowAmount, stateAfter_scatterAmount,
    stateAfter_scaleMultiplier.
  unfold lerp, flowFactor, scatterFactor, PHYSICS.OK_SCALE_MULTIPLIER in *.
  repeat match goal with
         | |- context [if ?b then _ else _] => destruct b
         end; lra.
Qed.

(** From the mounted component, a fist, an open palm close by, an OK
    sign. *)
Lemma amounts_stay_in_range_witness :
  amountsInRange
    (state (frames [(FIST, 0); (OPEN_PALM, 16); (OK_SIGN, 33)] mounted)).
Proof.
  apply amounts_stay_in_range. cbn.
  unfold amountsInRange, PHYSICS.OK_SCALE_MULTIPLIER. cbn. lra.
Defined.

(** X9.  The velocity stays between -1.2 and 2.4 once it is there, and then no
    frame moves a [cameraZ] that is within the limits by more than 2.4. *)
Theorem velocity_stays_bounded :
  (forall (inputs : list (HandGesture * R)) (w : Refs),
      velocityBounded (state w) ->
      velocityBounded (state (frames inputs w)))
  /\ (forall (g : HandGesture) (now : R) (w w' : Refs)
             (writes : list Write),
         animate g now w = Some (w', writes) ->
         velocityBounded (state w) -> withinLimits (state w) ->
         Rabs (cameraZ (state w') - cameraZ (state w)) <= 2.4).
Proof.
  split.
  - intros inputs w. revert inputs w.
    apply (frames_invariant (fun w => velocityBounded (state w))).
    intros g now w w' writes Ha Hv.
    apply animate_some in Ha as (c & _ & -> & _).
    unfold velocityBounded in *. rewrite stateAfter_velocityZ.
    pose proof (force_range g) as Hf.
    destruct (cameraPhysics_cases g (state w))
      as [(_ & _ & ->)|[(_ & _ & ->)|(_ & _ & ->)]]; lra.
  - intros g now w w' writes Ha Hv Hz.
    apply animate_some in Ha as (c & _ & -> & _).
    unfold velocityBounded, withinLimits in *. rewrite stateAfter_cameraZ.
    pose proof (force_range g) as Hf.
    revert Hz. unfold CAMERA_LIMITS.MIN_Z, CAMERA_LIMITS.MAX_Z. intros Hz.
    destruct (cameraPhysics_cases g (state w))
      as [(H1 & -> & _)|[(H1 & -> & _)|(H1 & -> & _)]];
      revert H1; unfold CAMERA_LIMITS.MIN_Z, CAMERA_LIMITS.MAX_Z;
      intros H1; apply Rabs_le; lra.
Qed.

(** Three frames from the mounted component; and the first fist frame. *)
Lemma velocity_stays_bounded_witness :
  velocityBounded
    (state (frames [(FIST, 0); (OPEN_PALM, 16); (NONE, 33)] mounted))
  /\ exists w' writes,
       animate FIST 0 mounted = Some (w', writes)
       /\ Rabs (cameraZ (state w') - cameraZ (state mounted)) <= 2.4.
Proof.
  destruct velocity_stays_bounded as [Hinv Hstep].
  assert (Hv : velocityBounded (state mounted))
    by (unfold velocityBounded; cbn; lra).
  split; [now apply Hinv|].
  do 2 eexists. split; [reflexivity|].
  apply (Hstep FIST 0 mounted _ _ eq_refl Hv).
  unfold withinLimits. cbn.
  unfold CAMERA_LIMITS.MIN_Z, CAMERA_LIMITS.MAX_Z, CAMERA_LIMITS.DEFAULT_Z.
  lra.
Defined.

(** *** The rendered camera *)

(** X10.  Every frame moves the rendered camera a tenth of the way to the
    logical distance reached on that frame; a rendered camera that is
    within [MIN_Z, MAX_Z] stays there over any sequence of frames. *)
Theorem rendered_camera_follows :
  (forall (g : HandGesture) (now : R) (w w' : Refs) (writes : list Write)
          (c : R),
      animate g now w = Some (w', writes) -> camera w = Some c ->
      exists c' : R,
        camera w' = Some c'
        /\ c' - cameraZ (state w') = 0.9 * (c - cameraZ (state w')))
  /\ (forall (inputs : list (HandGesture * R)) (w : Refs) (c : R),
         camera w = Some c ->
         CAMERA_LIMITS.MIN_Z <= c <= CAMERA_LIMITS.MAX_Z ->
         exists c' : R,
           camera (frames inputs w) = Some c'
           /\ CAMERA_LIMITS.MIN_Z <= c' <= CAMERA_LIMITS.MAX_Z).
Proof.
  split.
  - intros g now w w' writes c Ha Hc.
    apply animate_some in Ha as (c0 & Hc0 & Hst & Hcam & _).
    rewrite Hc in Hc0. injection Hc0 as <-.
    eexists. split; [exact Hcam|].
    rewrite Hst, renderedAfter_eq. unfold lerp. lra.
  - intros inputs w c Hc Hrange.
    apply (frames_invariant
             (fun w => exists c, camera w = Some c
                        /\ CAMERA_LIMITS.MIN_Z <= c <= CAMERA_LIMITS.MAX_Z));
      [|now exists c].
    clear. intros g now w w' writes Ha (c & Hc & Hrange).
    apply animate_some in Ha as (c0 & Hc0 & Hst & Hcam & _).
    rewrite Hc in Hc0. injection Hc0 as <-.
    eexists. split; [exact Hcam|].
    rewrite renderedAfter_eq, stateAfter_cameraZ.
    pose proof (cameraPhysics_withinLimits g (state w)) as Hz.
    unfold withinLimits in Hz. unfold lerp. lra.
Qed.

(** The first open-palm frame of the mounted component. *)
Lemma rendered_camera_follows_witness :
  (exists w' writes c',
      animate OPEN_PALM 0 mounted = Some (w', writes)
      /\ camera w' = Some c'
      /\ c' - cameraZ (state w')
         = 0.9 * (CAMERA_LIMITS.DEFAULT_Z - cameraZ (state w')))
  /\ exists c' : R,
       camera (frames [(OPEN_PALM, 0); (FIST, 16)] mounted) = Some c'
       /\ CAMERA_LIMITS.MIN_Z <= c' <= CAMERA_LIMITS.MAX_Z.
Proof.
  destruct rendered_camera_follows as [Hstep Hinv]. split.
  - destruct (Hstep OPEN_PALM 0 mounted _ _ CAMERA_LIMITS.DEFAULT_Z
                eq_refl eq_refl) as (c' & Hc' & Hgap).
    do 3 eexists. split; [reflexivity|]. split; [exact Hc'|exact Hgap].
  - apply (Hinv _ mounted CAMERA_LIMITS.DEFAULT_Z eq_refl).
    unfold CAMERA_LIMITS.MIN_Z, CAMERA_LIMITS.MAX_Z,
      CAMERA_LIMITS.DEFAULT_Z. lra.
Defined.

(** *** Rest *)

Lemma PhysicsState_ext (a b : PhysicsState) :
  cameraZ a = cameraZ b -> velocityZ a = velocityZ b ->
  scatterAmount a = scatterAmount b -> flowAmount a = flowAmount b ->
  scaleMultiplier a = scaleMultiplier b -> particles a = particles b ->
  a = b.
Proof.
  destruct a, b. cbn. intros. subst. reflexivity.
Qed.

Lemma particleTransform_still (g : HandGesture) (st : PhysicsState)
    (time : R) (p : ParticleData) :
  flowAmount st <= 0.001 -> scatterAmount st <= 0.001 ->
  position (particleTransform g st time p) = position (basePose p)
  /\ rotation (particleTransform g st time p) = rotation (basePose p).
Proof.
  intros Hf Hs. unfold particleTransform.
  rewrite (proj2 (gtb_false (flowAmount st) 0.001)) by exact Hf.
  rewrite (proj2 (gtb_false (scatterAmount st) 0.001)) by exact Hs.
  split; reflexivity.
Qed.

(** X11.  At rest within the limits, with the rendered camera on the logical
    one, a frame that reads [NONE] changes nothing at all, and writes every
    particle at its base pose. *)
Theorem rest_is_a_fixed_point (now : R) (w : Refs) :
  camera w = Some (cameraZ (state w)) ->
  renderer w = true -> scene w = true ->
  atRest (state w) -> withinLimits (state w) ->
  exists writes : list Write,
    animate NONE now w = Some (w, writes)
    /\ forall wr : Write, In wr writes ->
         exists p : ParticleData,
           In p (particles (state w)) /\ matrix wr = basePose p.
Proof.
  intros Hc Hr Hs (Hv & Hflow & Hscat & Hscale) Hz.
  assert (Hphys : cameraPhysics NONE (state w) = state w).
  { rewrite cameraPhysics_within.
    - apply PhysicsState_ext; try reflexivity.
      + rewrite integrate_cameraZ, Hv. cbn [force]. lra.
      + rewrite integrate_velocityZ, Hv. cbn [force]. lra.
    - rewrite integrate_cameraZ, Hv. cbn [force].
      unfold withinLimits in Hz. lra. }
  assert (Hst : stateAfter NONE now (state w) (cameraZ (state w)) (meshes w)
                = state w).
  { apply PhysicsState_ext.
    - now rewrite stateAfter_cameraZ, Hphys.
    - now rewrite stateAfter_velocityZ, Hphys.
    - rewrite stateAfter_scatterAmount, Hscat.
      rewrite andb_false_r. unfold lerp. lra.
    - rewrite stateAfter_flowAmount, Hflow. cbn. unfold lerp. lra.
    - rewrite stateAfter_scaleMultiplier, Hscale. cbn. unfold lerp. lra.
    - apply stateAfter_particles. }
  exists (writesOf NONE now (state w) (cameraZ (state w)) (meshes w)).
  split.
  - rewrite (animate_live NONE now w _ Hc Hr Hs). f_equal. f_equal.
    rewrite renderedAfter_eq, Hst.
    destruct w as [st cam ren sc mg ms]. cbn in *. subst.
    f_equal. f_equal. unfold lerp. lra.
  - intros wr Hwr.
    change (writesOf NONE now (state w) (cameraZ (state w)) (meshes w))
      with (updateParticles NONE
              (stateAfter NONE now (state w) (cameraZ (state w)) (meshes w))
              (now * 0.001) (meshes w)
              (particles
                 (stateAfter NONE now (state w) (cameraZ (state w))
                    (meshes w)))) in Hwr.
    rewrite Hst in Hwr.
    apply updateParticles_In in Hwr as (p & Hp & _ & ->).
    exists p. split; [exact Hp|]. cbn [matrix].
    destruct (particleTransform_still NONE (state w) (now * 0.001) p)
      as [Hpos Hrot]; [lra|lra|].
    pose proof (particleTransform_scale NONE (state w) (now * 0.001) p)
      as Hsc. cbn [HandGesture_eqb] in Hsc.
    destruct (particleTransform NONE (state w) (now * 0.001) p)
      as [pos rot sc]. cbn in *. now subst.
Qed.

(** The mounted component is at rest. *)
Lemma rest_is_a_fixed_point_witness :
  exists writes : list Write,
    animate NONE 0 mounted = Some (mounted, writes).
Proof.
  destruct (rest_is_a_fixed_point 0 mounted) as (writes & Hfix & _).
  - reflexivity.
  - reflexivity.
  - reflexivity.
  - repeat split.
  - unfold withinLimits. cbn.
    unfold CAMERA_LIMITS.MIN_Z, CAMERA_LIMITS.MAX_Z,
      CAMERA_LIMITS.DEFAULT_Z. lra.
  - now exists writes.
Defined.

(** *** What the loop leaves alone *)

(** X12.  No sequence of frames changes the particle list, the mesh list or the
    mesh-group ref; live refs stay live; and while one of the three refs of
    the guard is missing the frames change nothing. *)
Theorem frames_keep_particles (inputs : list (HandGesture * R))
    (w : Refs) :
  particles (state (frames inputs w)) = particles (state w)
  /\ meshes (frames inputs w) = meshes w
  /\ meshGroup (frames inputs w) = meshGroup w
  /\ (live w -> live (frames inputs w))
  /\ (~ live w -> frames inputs w = w).
Proof.
  split; [|split; [|split; [|split]]].
  - apply (frames_invariant
             (fun w' => particles (state w') = particles (state w)));
      [|reflexivity].
    intros g now w1 w2 writes Ha Hw1.
    apply animate_some in Ha as (c & _ & -> & _).
    now rewrite stateAfter_particles.
  - apply (frames_invariant (fun w' => meshes w' = meshes w));
      [|reflexivity].
    intros g now w1 w2 writes Ha Hw1. unfold animate in Ha.
    destruct (camera w1); [|discriminate].
    destruct (negb (renderer w1) || negb (scene w1)); [discriminate|].
    injection Ha as <- _. exact Hw1.
  - apply (frames_invariant (fun w' => meshGroup w' = meshGroup w));
      [|reflexivity].
    intros g now w1 w2 writes Ha Hw1. unfold animate in Ha.
    destruct (camera w1); [|discriminate].
    destruct (negb (renderer w1) || negb (scene w1)); [discriminate|].
    injection Ha as <- _. exact Hw1.
  - apply (frames_invariant live).
    intros g now w1 w2 writes Ha _.
    now apply animate_some in Ha as (c & _ & _ & _ & _ & Hlive).
  - intros Hdead. destruct inputs as [|[g now] rest]; [reflexivity|].
    apply (frames_stopped _ w g now). unfold animate.
    destruct (camera w) as [c|] eqn:Hc; [|reflexivity].
    destruct (renderer w) eqn:Hr, (scene w) eqn:Hs; try reflexivity.
    exfalso. apply Hdead. repeat split; congruence.
Qed.

(** Before the scene is initialized the loop does nothing. *)
Lemma frames_keep_particles_witness :
  frames [(FIST, 0); (OPEN_PALM, 16)] unmounted = unmounted
  /\ live (frames [(FIST, 0); (OPEN_PALM, 16)] mounted).
Proof.
  split.
  - apply (frames_keep_particles _ unmounted). intros (H & _).
    now apply H.
  - apply (frames_keep_particles _ mounted). repeat split; discriminate.
Defined.

(** *** A sustained open palm *)

Ltac free_flight :=
  cbn [freeDistance freeVelocity force];
  unfold CAMERA_LIMITS.DEFAULT_Z, CAMERA_LIMITS.MIN_Z, CAMERA_LIMITS.MAX_Z,
    PHYSICS.PULL_ACCELERATION;
  lra.

Lemma freeDistance_OPEN_PALM_29 :
  CAMERA_LIMITS.MIN_Z < freeDistance OPEN_PALM 29.
Proof. free_flight. Qed.

Lemma freeDistance_OPEN_PALM_30 :
  freeDistance OPEN_PALM 30 < CAMERA_LIMITS.MIN_Z.
Proof. free_flight. Qed.

Lemma sustainedRun_OPEN_PALM_free29 (clock : nat -> R) (n : nat) :
  (n <= 29)%nat ->
  cameraAt (sustainedRun OPEN_PALM clock n)
    (freeDistance OPEN_PALM n) (freeVelocity OPEN_PALM n).
Proof.
  intros Hn. apply sustainedRun_free. intros k Hk.
  pose proof (freeDistance_OPEN_PALM_mono 0 k (Nat.le_0_l k)) as Hhi.
  pose proof (freeDistance_OPEN_PALM_mono k 29
                (Nat.le_trans _ _ _ Hk Hn)) as Hlo.
  pose proof freeDistance_OPEN_PALM_29.
  cbn [freeDistance] in Hhi. revert Hhi.
  unfold CAMERA_LIMITS.DEFAULT_Z, CAMERA_LIMITS.MAX_Z. lra.
Qed.

Lemma sustainedRun_OPEN_PALM_stays (clock : nat -> R) (n : nat) :
  (30 <= n)%nat ->
  cameraAt (sustainedRun OPEN_PALM clock n) CAMERA_LIMITS.MIN_Z 0.
Proof.
  induction 1 as [|n Hle IH]; rewrite sustainedRun_S.
  - apply (step_below OPEN_PALM (clock 29%nat) _ (freeDistance OPEN_PALM 29)
             (freeVelocity OPEN_PALM 29)).
    + apply sustainedRun_OPEN_PALM_free29. lia.
    + exact freeDistance_OPEN_PALM_30.
  - apply (step_below OPEN_PALM (clock n) _ CAMERA_LIMITS.MIN_Z 0 IH).
    cbn [force]. unfold CAMERA_LIMITS.MIN_Z. lra.
Qed.

(** X13.  From the mounted component an open palm held for 30 frames brings
    [cameraZ] to [MIN_Z] with [velocityZ = 0], where it stays while the
    palm is held; before frame 30 it is above [MIN_Z], and it never
    increases. *)
Theorem sustained_open_palm_reaches_MIN_Z (clock : nat -> R) :
  (forall n : nat, (30 <= n)%nat ->
      cameraZ (state (sustainedRun OPEN_PALM clock n)) = CAMERA_LIMITS.MIN_Z
      /\ velocityZ (state (sustainedRun OPEN_PALM clock n)) = 0)
  /\ (forall n : nat, (n < 30)%nat ->
         CAMERA_LIMITS.MIN_Z
         < cameraZ (state (sustainedRun OPEN_PALM clock n)))
  /\ (forall n : nat,
         cameraZ (state (sustainedRun OPEN_PALM clock (S n)))
         <= cameraZ (state (sustainedRun OPEN_PALM clock n))).
Proof.
  split; [|split].
  - intros n Hn.
    destruct (sustainedRun_OPEN_PALM_stays clock n Hn) as (_ & Hz & Hv).
    now split.
  - intros n Hn.
    destruct (sustainedRun_OPEN_PALM_free29 clock n) as (_ & -> & _);
      [lia|].
    pose proof (freeDistance_OPEN_PALM_mono n 29) as Hmono.
    pose proof freeDistance_OPEN_PALM_29. specialize (Hmono ltac:(lia)).
    lra.
  - intros n. destruct (Nat.lt_ge_cases n 29) as [Hlt|Hge].
    + destruct (sustainedRun_OPEN_PALM_free29 clock n) as (_ & -> & _);
        [lia|].
      destruct (sustainedRun_OPEN_PALM_free29 clock (S n)) as (_ & -> & _);
        [lia|].
      apply freeDistance_OPEN_PALM_mono. lia.
    + destruct (sustainedRun_OPEN_PALM_stays clock (S n)) as (_ & -> & _);
        [lia|].
      destruct (Nat.eq_dec n 29) as [->|Hne].
      * destruct (sustainedRun_OPEN_PALM_free29 clock 29) as (_ & -> & _);
          [lia|].
        pose proof freeDistance_OPEN_PALM_29. lra.
      * destruct (sustainedRun_OPEN_PALM_stays clock n) as (_ & -> & _);
          [lia|]. lra.
Qed.

(** Frame 30 of a palm held at 60 frames a second. *)
Lemma sustained_open_palm_reaches_MIN_Z_witness :
  cameraZ (state (sustainedRun OPEN_PALM steadyClock 30))
  = CAMERA_LIMITS.MIN_Z
  /\ CAMERA_LIMITS.MIN_Z
     < cameraZ (state (sustainedRun OPEN_PALM steadyClock 29)).
Proof.
  destruct (sustained_open_palm_reaches_MIN_Z steadyClock)
    as (Hreach & Hbefore & _).
  split.
  - apply (Hreach 30%nat). lia.
  - apply (Hbefore 29%nat). lia.
Defined.

Lemma sustainedRun_OPEN_PALM_near (clock : nat -> R) (n : nat) :
  (23 <= n)%nat ->
  cameraZ (state (sustainedRun OPEN_PALM clock n)) < 10.
Proof.
  intros Hn. destruct (Nat.lt_ge_cases n 30) as [Hlt|Hge].
  - destruct (sustainedRun_OPEN_PALM_free29 clock n) as (_ & -> & _);
      [lia|].
    pose proof (freeDistance_OPEN_PALM_mono 23 n Hn).
    pose proof freeDistance_OPEN_PALM_23. lra.
  - destruct (sustainedRun_OPEN_PALM_stays clock n Hge) as (_ & -> & _).
    unfold CAMERA_LIMITS.MIN_Z. lra.
Qed.

(** X14.  Under a held open palm [scatterAmount] is 0 up to frame 22 and then
    rises as [1 - 0.95 ^ k], [k] frames later: the scatter starts on frame
    23, when [cameraZ] first is below 10. *)
Theorem scatter_starts_on_frame_23 (clock : nat -> R) :
  (forall n : nat, (n <= 22)%nat ->
      scatterAmount (state (sustainedRun OPEN_PALM clock n)) = 0)
  /\ (forall k : nat,
         scatterAmount (state (sustainedRun OPEN_PALM clock (22 + k)))
         = 1 - 0.95 ^ k).
Proof.
  split.
  - intros n Hn.
    now destruct (sustainedRun_OPEN_PALM_lagging clock n Hn)
      as (c & _ & _ & Hs).
  - induction k as [|k IH].
    + destruct (sustainedRun_OPEN_PALM_lagging clock 22 (Nat.le_refl 22))
        as (c & _ & _ & Hs).
      rewrite Nat.add_0_r, Hs. cbn [pow]. lra.
    + replace (22 + S k)%nat with (S (22 + k)) by lia.
      pose proof (sustainedRun_OPEN_PALM_near clock (S (22 + k))) as Hnear.
      specialize (Hnear ltac:(lia)).
      rewrite sustainedRun_S in Hnear |- *.
      assert (Hlive : live (sustainedRun OPEN_PALM clock (22 + k))).
      { apply (frames_invariant live); [|repeat split; discriminate].
        intros g now w1 w2 writes Ha _.
        now apply animate_some in Ha as (c & _ & _ & _ & _ & Hl). }
      destruct (frame_live OPEN_PALM (clock (22 + k)%nat) _ Hlive)
        as (c & _ & Hst & _).
      rewrite Hst in Hnear |- *.
      rewrite stateAfter_scatterAmount, IH.
      rewrite (proj2 (ltb_true _ _)) by exact Hnear.
      cbn [HandGesture_eqb andb pow]. unfold lerp, scatterFactor. lra.
Qed.

(** Frame 22, and frame 23 where the scatter is at 0.05. *)
Lemma scatter_starts_on_frame_23_witness :
  scatterAmount (state (sustainedRun OPEN_PALM steadyClock 22)) = 0
  /\ scatterAmount (state (sustainedRun OPEN_PALM steadyClock 23)) = 0.05.
Proof.
  destruct (scatter_starts_on_frame_23 steadyClock) as (Hoff & Hon).
  split.
  - apply (Hoff 22%nat). lia.
  - change 23%nat with (22 + 1)%nat. rewrite (Hon 1%nat). cbn [pow]. lra.
Defined.

(** *** Fading *)

Lemma sustained_S (g : HandGesture) (clock : nat -> R) (n : nat)
    (w : Refs) :
  frames (sustained g clock (S n)) w
  = frames [(g, clock n)] (frames (sustained g clock n) w).
Proof.
  unfold sustained. now rewrite seq_S, map_app, frames_app.
Qed.

Lemma frames_live (inputs : list (HandGesture * R)) (w : Refs) :
  live w -> live (frames inputs w).
Proof.
  apply (frames_invariant live).
  intros g now w1 w2 writes Ha _.
  now apply animate_some in Ha as (c & _ & _ & _ & _ & Hl).
Qed.

(** X15.  While one gesture is held, the amounts it does not feed fade
    geometrically, frame after frame: flow by 0.985 and scatter by 0.95
    under any gesture but [OPEN_PALM], the excess of the scale over 1 by
    0.9 under any gesture but [OK_SIGN]; under [OPEN_PALM] it is the
    distance of the flow to 1 that shrinks by 0.985. *)
Theorem amounts_fade_geometrically (g : HandGesture) (clock : nat -> R)
    (n : nat) (w : Refs) :
  live w ->
  let w' := frames (sustained g clock n) w in
  (g <> OPEN_PALM ->
   flowAmount (state w') = flowAmount (state w) * 0.985 ^ n
   /\ scatterAmount (state w') = scatterAmount (state w) * 0.95 ^ n)
  /\ (g <> OK_SIGN ->
      scaleMultiplier (state w') - 1
      = (scaleMultiplier (state w) - 1) * 0.9 ^ n)
  /\ (g = OPEN_PALM ->
      1 - flowAmount (state w') = (1 - flowAmount (state w)) * 0.985 ^ n).
Proof.
  intros Hlive. cbv zeta. induction n as [|n (IHoff & IHscale & IHon)].
  - cbn. repeat split; intros; lra.
  - rewrite sustained_S.
    destruct (frame_live g (clock n) _
                (frames_live (sustained g clock n) w Hlive))
      as (c & _ & -> & _).
    rewrite stateAfter_flowAmount, stateAfter_scatterAmount,
      stateAfter_scaleMultiplier.
    unfold lerp, flowFactor, scatterFactor.
    split; [|split].
    + intros Hg. destruct (IHoff Hg) as [-> ->].
      rewrite (proj2 (HandGesture_eqb_neq g OPEN_PALM) Hg).
      rewrite andb_false_r. cbn [pow]. split; lra.
    + intros Hg.
      rewrite (proj2 (HandGesture_eqb_neq g OK_SIGN) Hg).
      specialize (IHscale Hg). cbn [pow]. lra.
    + intros ->. specialize (IHon eq_refl). cbn [HandGesture_eqb pow]. lra.
Qed.

(** Two frames after an OK sign is released. *)
Lemma amounts_fade_geometrically_witness :
  let w := {| state := afterOkSign; camera := Some 20; renderer := true;
              scene := true; meshGroup := true; meshes := [1%nat] |} in
  scaleMultiplier (state (frames (sustained NONE steadyClock 2) w)) - 1
  = (PHYSICS.OK_SCALE_MULTIPLIER - 1) * 0.9 ^ 2.
Proof.
  intros w.
  apply (amounts_fade_geometrically NONE steadyClock 2 w).
  - repeat split; discriminate.
  - discriminate.
Defined.

(** *** The pose of a particle *)

(** X16.  With flow and scatter amounts that are not negative, a particle is
    written within [50 |vx| scatter] of its base x, within
    [2 flow + 50 |vy| scatter] of its base y and within
    [5 flow + 50 |vz| scatter] of its base z; its turn about z is at most
    [0.04 PI flow], and without scatter its turn about x is at most
    [0.08 PI flow] and it does not turn about y.  With both amounts at
    0.001 or less it is written at its base position, unturned. *)
Theorem particle_stays_near_base (g : HandGesture) (st : PhysicsState)
    (time : R) (p : ParticleData) :
  0 <= flowAmount st -> 0 <= scatterAmount st ->
  let t := particleTransform g st time p in
  Rabs (posX t - Scene.x (raw p))
  <= 50 * Rabs (vx (raw p)) * scatterAmount st
  /\ Rabs (posY t - Scene.y (raw p))
     <= 2 * flowAmount st + 50 * Rabs (vy (raw p)) * scatterAmount st
  /\ Rabs (posZ t - Scene.z (raw p))
     <= 5 * flowAmount st + 50 * Rabs (vz (raw p)) * scatterAmount st
  /\ Rabs (rotZ t) <= 0.04 * PI * flowAmount st
  /\ (scatterAmount st <= 0.001 ->
      Rabs (rotX t) <= 0.08 * PI * flowAmount st /\ rotY t = 0)
  /\ (flowAmount st <= 0.001 -> scatterAmount st <= 0.001 ->
      position t = position (basePose p)
      /\ rotation t = rotation (basePose p)).
Proof.
  intros Hf Hs t.
  assert (Hpi : 0 < PI) by apply PI_RGT_0.
  set (phase := Scene.x (raw p) * 0.08 - time * 0.2).
  pose proof (SIN_bound phase) as [Hs1 Hs2].
  pose proof (COS_bound phase) as [Hc1 Hc2].
  pose proof (COS_bound (phase * 0.5)) as [Hh1 Hh2].
  assert (Hpf : 0 <= PI * flowAmount st) by nra.
  assert (Hsx : Rabs (vx (raw p) * scatterAmount st)
                = Rabs (vx (raw p)) * scatterAmount st)
    by (rewrite Rabs_mult, (Rabs_right (scatterAmount st)); lra).
  assert (Hsy : Rabs (vy (raw p) * scatterAmount st)
                = Rabs (vy (raw p)) * scatterAmount st)
    by (rewrite Rabs_mult, (Rabs_right (scatterAmount st)); lra).
  assert (Hsz : Rabs (vz (raw p) * scatterAmount st)
                = Rabs (vz (raw p)) * scatterAmount st)
    by (rewrite Rabs_mult, (Rabs_right (scatterAmount st)); lra).
  pose proof (Rabs_pos (vx (raw p))) as Hax.
  pose proof (Rabs_pos (vy (raw p))) as Hay.
  pose proof (Rabs_pos (vz (raw p))) as Haz.
  pose proof (Rle_abs (vx (raw p) * scatterAmount st)) as Hx1.
  pose proof (Rle_abs (- (vx (raw p) * scatterAmount st))) as Hx2.
  pose proof (Rle_abs (vy (raw p) * scatterAmount st)) as Hy1.
  pose proof (Rle_abs (- (vy (raw p) * scatterAmount st))) as Hy2.
  pose proof (Rle_abs (vz (raw p) * scatterAmount st)) as Hz1.
  pose proof (Rle_abs (- (vz (raw p) * scatterAmount st))) as Hz2.
  rewrite Rabs_Ropp in Hx2, Hy2, Hz2.
  rewrite Hsx in Hx1, Hx2. rewrite Hsy in Hy1, Hy2.
  rewrite Hsz in Hz1, Hz2.
  assert (Hsf : - flowAmount st <= sin phase * flowAmount st
                <= flowAmount st) by nra.
  assert (Hcf : - flowAmount st <= cos phase * flowAmount st
                <= flowAmount st) by nra.
  assert (Hhf : - flowAmount st <= cos (phase * 0.5) * flowAmount st
                <= flowAmount st) by nra.
  assert (Hspf : - (PI * flowAmount st) <= sin phase * (PI * flowAmount st)
                 <= PI * flowAmount st) by nra.
  assert (Hcpf : - (PI * flowAmount st) <= cos phase * (PI * flowAmount st)
                 <= PI * flowAmount st) by nra.
  subst t. unfold particleTransform, posX, posY, posZ, rotX, rotY, rotZ.
  fold phase. cbn [position rotation fst snd].
  destruct (gtb (flowAmount st) 0.001) eqn:Hflow;
    destruct (gtb (scatterAmount st) 0.001) eqn:Hscat;
    first [apply gtb_true in Hflow | apply gtb_false in Hflow];
    first [apply gtb_true in Hscat | apply gtb_false in Hscat];
    (split; [apply Rabs_le; lra|]);
    (split; [apply Rabs_le; lra|]);
    (split; [apply Rabs_le; lra|]);
    (split; [apply Rabs_le; lra|]);
    (split;
     [intros Hoff;
      first [lra | split; [apply Rabs_le; lra|reflexivity]]|]);
    intros Hfoff Hsoff; first [lra | split; reflexivity].
Qed.

(** A particle under half flow and no scatter. *)
Lemma particle_stays_near_base_witness :
  let st := set_flowAmount afterOkSign 0.5 in
  let p := {| raw := mkRaw 1 2 0 0.1 0.1 0.1;
              meshIndex := 0; instanceIndex := 0 |} in
  Rabs (posX (particleTransform NONE st 7 p) - 1) <= 0
  /\ Rabs (posZ (particleTransform NONE st 7 p) - 0) <= 2.5.
Proof.
  intros st p.
  destruct (particle_stays_near_base NONE st 7 p)
    as (Hx & _ & Hz & _).
  - unfold st. cbn [flowAmount set_flowAmount]. lra.
  - unfold st. cbn [scatterAmount set_flowAmount afterOkSign]. lra.
  - unfold st, p in Hx, Hz.
    cbn [raw vx vz Scene.x Scene.z scatterAmount flowAmount
           set_flowAmount afterOkSign] in Hx, Hz.
    unfold st, p. split; lra.
Defined.

End PhysicsMore.

(** * Further properties of the particle field builder *)

Section BuilderMore.
Import Scene SceneSpec MoreSpec Raster.

Lemma set_nth_same {A : Type} (l : list A) (i : nat) (d : A) :
  (i < List.length l)%nat -> set_nth l i (nth i l d) = l.
Proof.
  revert i; induction l as [|h t IH]; intros [|i] Hi; cbn in *;
    try lia; [reflexivity|]. f_equal. apply IH. lia.
Qed.

Lemma set_nth_twice {A : Type} (l : list A) (i : nat) (a b : A) :
  set_nth (set_nth l i a) i b = set_nth l i b.
Proof.
  revert i; induction l as [|h t IH]; intros [|i]; cbn; try reflexivity.
  f_equal. apply IH.
Qed.

(** When every draw falls in group [m], the loop appends the raw particles
    to that group and numbers them from its size on. *)
Lemma distribute_single_group (n : nat) (random : nat -> R) (m : nat) :
  (forall k : nat, Zfloor (random k * INR n) = Z.of_nat m) ->
  forall (rawParticles : list RawParticle) (k : nat)
         (particlesPerMesh : list (list RawParticle))
         (finalParticles : list ParticleData),
    (m < List.length particlesPerMesh)%nat ->
    distribute n random k rawParticles particlesPerMesh finalParticles
    = Returned
        (set_nth particlesPerMesh m
           (nth m particlesPerMesh [] ++ rawParticles),
         finalParticles
           ++ numbered m (List.length (nth m particlesPerMesh []))
                rawParticles).
Proof.
  intros Hdraw rawParticles.
  induction rawParticles as [|p rest IH];
    intros k particlesPerMesh finalParticles Hm.
  - cbn [distribute numbered]. rewrite !app_nil_r.
    now rewrite set_nth_same.
  - cbn [distribute numbered]. rewrite Hdraw.
    rewrite (at_number_index particlesPerMesh _ []) by lia.
    rewrite Nat2Z.id.
    rewrite IH by (now rewrite length_set_nth).
    rewrite nth_set_nth_eq by assumption.
    rewrite set_nth_twice, <- !app_assoc. cbn [app].
    rewrite length_app. cbn [List.length].
    replace (List.length (nth m particlesPerMesh []) + 1 - 1)%nat
      with (List.length (nth m particlesPerMesh [])) by lia.
    replace (List.length (nth m particlesPerMesh []) + 1)%nat
      with (S (List.length (nth m particlesPerMesh []))) by lia.
    reflexivity.
Qed.

Lemma numbered_length (m start : nat) (rawParticles : list RawParticle) :
  List.length (numbered m start rawParticles) = List.length rawParticles.
Proof.
  revert start; induction rawParticles as [|p rest IH]; intros start;
    cbn; [reflexivity|]. now rewrite IH.
Qed.

Lemma numbered_meshIndex (m start : nat) (rawParticles : list RawParticle)
    (p : ParticleData) :
  In p (numbered m start rawParticles) -> meshIndex p = m.
Proof.
  revert start; induction rawParticles as [|q rest IH]; intros start;
    cbn; [intros []|]. intros [<-|Hin]; [reflexivity|]. now apply IH in Hin.
Qed.

Lemma rebuild_single_group (uploadedTextures : list string)
    (rawParticles : list RawParticle) (random : nat -> R) (w : Refs)
    (m : nat) :
  meshGroup w = true ->
  (m < List.length (texturesToUse uploadedTextures))%nat ->
  (forall k : nat,
      Zfloor (random k * INR (List.length (texturesToUse uploadedTextures)))
      = Z.of_nat m) ->
  exists w' : Refs,
    rebuild uploadedTextures rawParticles random w = Returned w'
    /\ particles (state w') = numbered m 0 rawParticles
    /\ meshes w'
       = match rawParticles with
         | [] => []
         | _ :: _ => [List.length rawParticles]
         end.
Proof.
  intros Hgroup Hm Hdraw. unfold rebuild, distributeParticles.
  rewrite Hgroup. cbn [negb].
  rewrite (distribute_single_group _ random m Hdraw)
    by (now rewrite length_map).
  eexists. split; [reflexivity|]. cbn [state particles meshes].
  rewrite nth_empty_groups. cbn [app List.length]. split; [reflexivity|].
  set (textures := texturesToUse uploadedTextures) in *.
  clearbody textures. clear Hdraw.
  revert m Hm. induction textures as [|t ts IH]; intros m Hm;
    [cbn in Hm; lia|].
  destruct m as [|m]; cbn [map set_nth filter List.length].
  - assert (Hrest : filter (fun count => negb (count =? 0)%nat)
                      (map (@List.length RawParticle)
                         (map (fun _ : string => []) ts)) = []).
    { clear. induction ts as [|t ts IH]; [reflexivity|]. cbn. exact IH. }
    rewrite Hrest. destruct rawParticles; reflexivity.
  - cbn [Nat.eqb negb]. apply IH. cbn in Hm. lia.
Qed.

(** X17.  With no uploaded texture (the placeholder) or a single one, every raw
    particle goes to group 0 and takes as slot its rank among the raw
    particles; the effect creates one mesh, of that many instances, unless
    there is no particle, in which case it creates none. *)
Theorem single_texture_build (uploadedTextures : list string)
    (rawParticles : list RawParticle) (random : nat -> R) (w : Refs) :
  unitInterval random ->
  (List.length uploadedTextures <= 1)%nat ->
  meshGroup w = true ->
  exists w' : Refs,
    rebuild uploadedTextures rawParticles random w = Returned w'
    /\ particles (state w') = numbered 0 0 rawParticles
    /\ meshes w'
       = match rawParticles with
         | [] => []
         | _ :: _ => [List.length rawParticles]
         end.
Proof.
  intros Hrand Hone Hgroup.
  assert (Hlen : List.length (texturesToUse uploadedTextures) = 1%nat).
  { unfold texturesToUse.
    destruct uploadedTextures as [|t [|t' ts]]; cbn in *; try reflexivity.
    lia. }
  apply rebuild_single_group; [exact Hgroup|lia|].
  intros k. rewrite Hlen.
  pose proof (floor_random_index (random k) 1 (Hrand k) ltac:(lia)).
  cbn [Z.of_nat] in *. lia.
Qed.

(** No upload and three raw particles. *)
Lemma single_texture_build_witness :
  let rawParticles :=
    [ mkRaw 1 2 0 0.1 0.1 0.1; mkRaw 3 4 0 0.2 0.2 0.2;
      mkRaw 5 6 0 0.1 0.2 0.1 ] in
  exists w' : Refs,
    rebuild [] rawParticles (fun _ => 0.7) mounted = Returned w'
    /\ particles (state w') = numbered 0 0 rawParticles
    /\ meshes w' = [3%nat].
Proof.
  intros rawParticles.
  apply (single_texture_build [] rawParticles (fun _ => 0.7) mounted).
  - intros k. lra.
  - cbn. lia.
  - reflexivity.
Defined.

Lemma updateParticles_no_mesh (g : HandGesture) (st : PhysicsState)
    (time : R) (meshList : list nat) (ps : list ParticleData) :
  (forall p : ParticleData, In p ps ->
      nth_error meshList (meshIndex p) = None) ->
  updateParticles g st time meshList ps = [].
Proof.
  induction ps as [|p ps IH]; intros Hnone; [reflexivity|].
  cbn [updateParticles]. rewrite (Hnone p (or_introl eq_refl)).
  apply IH. intros q Hq. apply Hnone. now right.
Qed.

Lemma updateParticles_all_meshes (g : HandGesture) (st : PhysicsState)
    (time : R) (meshList : list nat) (ps : list ParticleData) :
  (forall p : ParticleData, In p ps ->
      nth_error meshList (meshIndex p) <> None) ->
  updateParticles g st time meshList ps
  = map (fun p => {| mesh := meshIndex p; instance := instanceIndex p;
                     matrix := particleTransform g st time p |}) ps.
Proof.
  induction ps as [|p ps IH]; intros Hsome; [reflexivity|].
  cbn [updateParticles map].
  destruct (nth_error meshList (meshIndex p)) eqn:Hp.
  - f_equal. apply IH. intros q Hq. apply Hsome. now right.
  - exfalso. now apply (Hsome p (or_introl eq_refl)).
Qed.

Lemma writesOf_eq (g : HandGesture) (now : R) (st : PhysicsState) (c : R)
    (meshList : list nat) :
  writesOf g now st c meshList
  = updateParticles g (stateAfter g now st c meshList) (now * 0.001)
      meshList (particles st).
Proof.
  unfold writesOf, stateAfter, tick. cbn [fst snd].
  rewrite particleLogic_particles.
  now destruct (cameraPhysics_amounts g st) as (_ & _ & _ & ->).
Qed.

(** X18.  With two textures and every draw in [0.5, 1), all the particles go to
    group 1 while the only mesh the effect creates sits at index 0 of
    [meshesRef.current]: the particles are kept in the state but no frame
    writes a matrix for any of them. *)
Theorem second_group_alone_is_not_drawn (uploadedTextures : list string)
    (rawParticles : list RawParticle) (random : nat -> R) (w : Refs) :
  List.length uploadedTextures = 2%nat ->
  (forall k : nat, 0.5 <= random k < 1) ->
  meshGroup w = true ->
  exists w' : Refs,
    rebuild uploadedTextures rawParticles random w = Returned w'
    /\ particles (state w') = numbered 1 0 rawParticles
    /\ (List.length (meshes w') <= 1)%nat
    /\ forall (g : HandGesture) (now c : R),
         writesOf g now (state w') c (meshes w') = [].
Proof.
  intros Htwo Hrand Hgroup.
  assert (Hlen : List.length (texturesToUse uploadedTextures) = 2%nat).
  { unfold texturesToUse. rewrite Htwo. cbn. exact Htwo. }
  destruct (rebuild_single_group uploadedTextures rawParticles random w 1
              Hgroup) as (w' & Hrun & Hparts & Hmeshes).
  - lia.
  - intros k. rewrite Hlen. apply Zfloor_eq.
    destruct (Hrand k) as [Hlo Hhi]. cbn. lra.
  - exists w'. split; [exact Hrun|]. split; [exact Hparts|]. split.
    + rewrite Hmeshes. destruct rawParticles; cbn; lia.
    + intros g now c. rewrite writesOf_eq. apply updateParticles_no_mesh.
      intros p Hp. rewrite Hparts in Hp.
      rewrite (numbered_meshIndex 1 0 rawParticles p Hp), Hmeshes.
      destruct rawParticles; reflexivity.
Qed.

(** Two textures, three raw particles, draws at 0.7. *)
Lemma second_group_alone_is_not_drawn_witness :
  let rawParticles :=
    [ mkRaw 1 2 0 0.1 0.1 0.1; mkRaw 3 4 0 0.2 0.2 0.2;
      mkRaw 5 6 0 0.1 0.2 0.1 ] in
  exists w' : Refs,
    rebuild ["a"%string; "b"%string] rawParticles (fun _ => 0.7) mounted
    = Returned w'
    /\ List.length (particles (state w')) = 3%nat
    /\ writesOf OPEN_PALM 0 (state w') 20 (meshes w') = [].
Proof.
  intros rawParticles.
  destruct (second_group_alone_is_not_drawn ["a"%string; "b"%string]
              rawParticles (fun _ => 0.7) mounted)
    as (w' & Hrun & Hparts & _ & Hwrites).
  - reflexivity.
  - intros k. lra.
  - reflexivity.
  - exists w'. split; [exact Hrun|]. split; [now rewrite Hparts|].
    apply Hwrites.
Defined.

Lemma filter_all {A : Type} (f : A -> bool) (l : list A) :
  List.length (filter f l) = List.length l -> filter f l = l.
Proof.
  induction l as [|a l IH]; [reflexivity|]. cbn [filter].
  destruct (f a); cbn [List.length]; intros Hlen.
  - f_equal. apply IH. lia.
  - pose proof (filter_length_le f l). lia.
Qed.

(** X19.  When the effect creates as many meshes as there are textures (no group
    is empty), every frame writes one matrix per raw particle, each into an
    existing mesh at an instance below the capacity of that mesh, and no two
    of them into the same slot. *)
Theorem full_groups_fill_their_meshes (uploadedTextures : list string)
    (rawParticles : list RawParticle) (random : nat -> R) (w w' : Refs) :
  unitInterval random ->
  meshGroup w = true ->
  rebuild uploadedTextures rawParticles random w = Returned w' ->
  List.length (meshes w') = List.length (texturesToUse uploadedTextures) ->
  forall (g : HandGesture) (now c : R),
    let writes := writesOf g now (state w') c (meshes w') in
    List.length writes = List.length rawParticles
    /\ NoDup (map (fun wr => (mesh wr, instance wr)) writes)
    /\ forall wr : Write, In wr writes ->
         exists capacity : nat,
           nth_error (meshes w') (mesh wr) = Some capacity
           /\ (instance wr < capacity)%nat.
Proof.
  intros Hrand Hgroup Hrun Hfull g now c writes.
  unfold rebuild in Hrun. rewrite Hgroup in Hrun. cbn [negb] in Hrun.
  unfold distributeParticles in Hrun.
  assert (Hinit : consistent
                    (map (fun _ : string => @nil RawParticle)
                       (texturesToUse uploadedTextures)) []).
  { split; [|intros p []]. intros k Hk. unfold countOf, slotsOf.
    cbn [filter map]. now rewrite nth_empty_groups. }
  destruct (distribute_consistent
              (List.length (texturesToUse uploadedTextures)) random Hrand
              (texturesToUse_nonempty uploadedTextures) rawParticles 0 _ []
              (length_map _ _) Hinit)
    as (pm & fp & Hdist & Hlen & [Hslots Hgroups] & Hraw).
  rewrite Hdist in Hrun. injection Hrun as <-.
  cbn [state meshes particles] in *.
  assert (Hall : filter (fun count => negb (count =? 0)%nat)
                   (map (@List.length RawParticle) pm)
                 = map (@List.length RawParticle) pm).
  { apply filter_all. rewrite length_map, Hlen. exact Hfull. }
  subst writes. rewrite Hall in *. clear Hall.
  set (writes := writesOf g now _ c _).
  assert (Hmesh : forall p, In p fp ->
            nth_error (map (@List.length RawParticle) pm) (meshIndex p)
            = Some (countOf (meshIndex p) pm)).
  { intros p Hp. specialize (Hgroups p Hp).
    rewrite nth_error_map. unfold countOf.
    now rewrite (nth_error_nth' pm [] Hgroups). }
  assert (Hwrites : writes
                    = map (fun p =>
                             {| mesh := meshIndex p;
                                instance := instanceIndex p;
                                matrix := particleTransform g
                                  (stateAfter g now
                                     {| cameraZ := cameraZ (state w);
                                        velocityZ := velocityZ (state w);
                                        scatterAmount :=
                                          scatterAmount (state w);
                                        flowAmount := flowAmount (state w);
                                        scaleMultiplier :=
                                          scaleMultiplier (state w);
                                        particles := fp |} c
                                     (map (@List.length RawParticle) pm))
                                  (now * 0.001) p |}) fp).
  { subst writes. rewrite writesOf_eq. cbn [particles].
    apply updateParticles_all_meshes. intros p Hp.
    rewrite (Hmesh p Hp). discriminate. }
  rewrite Hwrites. split; [|split].
  - rewrite length_map, <- (length_map raw fp), Hraw. reflexivity.
  - rewrite map_map. cbn [mesh instance].
    apply (NoDup_slot fp). intros k.
    destruct (Nat.lt_ge_cases k (List.length pm)) as [Hk|Hk].
    + rewrite (Hslots k Hk). apply seq_NoDup.
    + rewrite (slotsOf_missing_group k (List.length pm) fp Hgroups Hk).
      constructor.
  - intros wr Hwr. apply in_map_iff in Hwr as (p & <- & Hp).
    cbn [mesh instance]. exists (countOf (meshIndex p) pm).
    split; [exact (Hmesh p Hp)|].
    assert (Hin : In (instanceIndex p) (slotsOf (meshIndex p) fp)).
    { unfold slotsOf. apply in_map. apply filter_In.
      split; [exact Hp|apply Nat.eqb_refl]. }
    rewrite (Hslots _ (Hgroups p Hp)) in Hin.
    apply in_seq in Hin. lia.
Qed.

(** The placeholder texture and three raw particles: three writes into the
    one mesh. *)
Lemma full_groups_fill_their_meshes_witness :
  let rawParticles :=
    [ mkRaw 1 2 0 0.1 0.1 0.1; mkRaw 3 4 0 0.2 0.2 0.2;
      mkRaw 5 6 0 0.1 0.2 0.1 ] in
  exists w' : Refs,
    rebuild [] rawParticles (fun _ => 0.7) mounted = Returned w'
    /\ List.length (writesOf FIST 0 (state w') 20 (meshes w')) = 3%nat.
Proof.
  intros rawParticles.
  destruct (rebuild_single_group [] rawParticles (fun _ => 0.7) mounted 0)
    as (w' & Hrun & _ & Hmeshes).
  - reflexivity.
  - cbn. lia.
  - intros k. apply Zfloor_eq. cbn. lra.
  - exists w'. split; [exact Hrun|].
    apply (full_groups_fill_their_meshes [] rawParticles (fun _ => 0.7)
             mounted w').
    + intros k. lra.
    + reflexivity.
    + exact Hrun.
    + rewrite Hmeshes. reflexivity.
Defined.

(** *** The silhouette *)

Lemma rows_visited {T : Type} (body : nat -> T -> T) (s : T) :
  forLoop SCENE_CONFIG.CANVAS_HEIGHT 0 SCENE_CONFIG.CANVAS_HEIGHT
    SCENE_CONFIG.PARTICLE_GAP body s
  = fold_left (fun s i => body i s)
      (visited SCENE_CONFIG.CANVAS_HEIGHT SCENE_CONFIG.PARTICLE_GAP) s.
Proof. vm_compute. reflexivity. Qed.

Lemma columns_visited {T : Type} (body : nat -> T -> T) (s : T) :
  forLoop SCENE_CONFIG.CANVAS_WIDTH 0 SCENE_CONFIG.CANVAS_WIDTH
    SCENE_CONFIG.PARTICLE_GAP body s
  = fold_left (fun s i => body i s)
      (visited SCENE_CONFIG.CANVAS_WIDTH SCENE_CONFIG.PARTICLE_GAP) s.
Proof. vm_compute. reflexivity. Qed.

(** A loop that has fuel to spare ends on its condition. *)
Lemma forLoop_spare_fuel {T : Type} (limit step : nat)
    (body : nat -> T -> T) :
  (0 < step)%nat ->
  forall (fuel i extra : nat) (s : T),
    (limit <= i + fuel * step)%nat ->
    forLoop (fuel + extra) i limit step body s
    = forLoop fuel i limit step body s.
Proof.
  intros Hstep fuel. induction fuel as [|fuel IH]; intros i extra s Hfuel.
  - cbn [Nat.add forLoop]. destruct extra as [|extra]; [reflexivity|].
    cbn [forLoop]. destruct (Nat.ltb_spec i limit); [lia|reflexivity].
  - cbn [Nat.add forLoop]. destruct (Nat.ltb_spec i limit); [|reflexivity].
    apply IH. lia.
Qed.

Lemma fold_left_pointwise {A B : Type} (f g : A -> B -> A) (l : list B) :
  (forall a b, f a b = g a b) ->
  forall a, fold_left f l a = fold_left g l a.
Proof.
  intros Hfg. induction l as [|b l IH]; intros a; [reflexivity|].
  cbn. now rewrite Hfg, IH.
Qed.

Lemma fold_left_flat_map {A B C : Type} (f : A -> C -> A)
    (g : B -> list C) (l : list B) (a : A) :
  fold_left f (flat_map g l) a
  = fold_left (fun a b => fold_left f (g b) a) l a.
Proof.
  revert a; induction l as [|b l IH]; intros a; [reflexivity|].
  cbn [flat_map fold_left]. now rewrite fold_left_app, IH.
Qed.

Lemma fold_left_map_arg {A B C : Type} (f : A -> C -> A) (g : B -> C)
    (l : list B) (a : A) :
  fold_left f (map g l) a = fold_left (fun a b => f a (g b)) l a.
Proof.
  revert a; induction l as [|b l IH]; intros a; [reflexivity|].
  cbn. apply IH.
Qed.

(** The scan visits the sampled pixels row by row. *)
Lemma scanBitmap_sampled (data : list nat) (random : nat -> R) :
  scanBitmap data random
  = fold_left
      (fun s pixel => scanPixel data random (fst pixel) (snd pixel) s)
      sampled ([], 0%nat).
Proof.
  unfold scanBitmap, sampled.
  rewrite rows_visited, fold_left_flat_map.
  apply fold_left_pointwise. intros s py.
  rewrite columns_visited, fold_left_map_arg. reflexivity.
Qed.

Lemma canvas_center :
  INR SCENE_CONFIG.CANVAS_WIDTH / 2 = 400
  /\ INR SCENE_CONFIG.CANVAS_HEIGHT / 2 = 150.
Proof.
  unfold SCENE_CONFIG.CANVAS_WIDTH, SCENE_CONFIG.CANVAS_HEIGHT.
  rewrite !INR_IZR_INZ.
  change (Z.of_nat 800) with 800%Z. change (Z.of_nat 300) with 300%Z.
  split; lra.
Qed.

(** What one pixel adds to the state. *)
Lemma scanPixel_cases (data : list nat) (random : nat -> R)
    (pixel : nat * nat) (s : list RawParticle * nat) :
  (bright data pixel = false
   /\ scanPixel data random (fst pixel) (snd pixel) s = s)
  \/ (bright data pixel = true
      /\ exists p : RawParticle,
           scanPixel data random (fst pixel) (snd pixel) s
           = (fst s ++ [p], (snd s + 3)%nat)
           /\ positionOf p = worldOf pixel
           /\ vx p = (random (snd s) - 0.5) * 0.5
           /\ vy p = (random (snd s + 1)%nat - 0.5) * 0.5
           /\ vz p = (random (snd s + 2)%nat - 0.5) * 0.5).
Proof.
  unfold bright, scanPixel.
  destruct (nth_error data
              ((fst pixel * SCENE_CONFIG.CANVAS_WIDTH + snd pixel) * 4))
    as [r|]; [|left; split; reflexivity].
  destruct (128 <? r)%nat; [|left; split; reflexivity].
  right. split; [reflexivity|]. eexists. split; [reflexivity|].
  destruct canvas_center as [Hw Hh].
  unfold positionOf, worldOf. cbn [Scene.x Scene.y Scene.z vx vy vz].
  rewrite Hw, Hh. unfold SCENE_CONFIG.PARTICLE_SIZE.
  repeat split.
Qed.

Lemma scan_positions (data : list nat) (random : nat -> R)
    (pixels : list (nat * nat)) :
  forall s : list RawParticle * nat,
    let r := fold_left
               (fun s pixel =>
                  scanPixel data random (fst pixel) (snd pixel) s)
               pixels s in
    map positionOf (fst r)
    = map positionOf (fst s) ++ map worldOf (filter (bright data) pixels)
    /\ snd r = (snd s + 3 * List.length (filter (bright data) pixels))%nat.
Proof.
  induction pixels as [|pixel rest IH]; intros s; cbn zeta.
  - cbn. rewrite app_nil_r. split; [reflexivity|lia].
  - cbn [fold_left filter].
    destruct (scanPixel_cases data random pixel s)
      as [(Hb & ->)|(Hb & p & -> & Hpos & _)]; rewrite Hb.
    + apply IH.
    + destruct (IH (fst s ++ [p], (snd s + 3)%nat)) as [Hmap Hdraws].
      cbn [fst snd] in Hmap, Hdraws. rewrite Hmap, Hdraws.
      rewrite map_app, <- app_assoc. cbn [map app List.length].
      rewrite Hpos. split; [reflexivity|lia].
Qed.

Lemma generateRaw_sampled (data : list nat) (random : nat -> R) :
  generateRawParticlePositions (Some data) random
  = fst (fold_left
           (fun s pixel => scanPixel data random (fst pixel) (snd pixel) s)
           sampled ([], 0%nat)).
Proof.
  unfold generateRawParticlePositions. now rewrite scanBitmap_sampled.
Qed.

Lemma generateRaw_positions (data : list nat) (random : nat -> R) :
  map positionOf (generateRawParticlePositions (Some data) random)
  = map worldOf (filter (bright data) sampled).
Proof.
  rewrite generateRaw_sampled.
  pose proof (scan_positions data random sampled ([], 0%nat)) as H.
  cbv zeta in H. destruct H as [H _]. rewrite H.
  change (fst (@nil RawParticle, 0%nat)) with (@nil RawParticle).
  apply app_nil_l.
Qed.

Lemma sampled_length : List.length sampled = (150 * 400)%nat.
Proof.
  unfold sampled.
  assert (Hrows : List.length
                    (visited SCENE_CONFIG.CANVAS_HEIGHT
                       SCENE_CONFIG.PARTICLE_GAP) = 150%nat)
    by (unfold visited; rewrite length_map, length_seq; reflexivity).
  assert (Hcols : List.length
                    (visited SCENE_CONFIG.CANVAS_WIDTH
                       SCENE_CONFIG.PARTICLE_GAP) = 400%nat)
    by (unfold visited; rewrite length_map, length_seq; reflexivity).
  revert Hrows Hcols.
  generalize (visited SCENE_CONFIG.CANVAS_HEIGHT SCENE_CONFIG.PARTICLE_GAP).
  generalize (visited SCENE_CONFIG.CANVAS_WIDTH SCENE_CONFIG.PARTICLE_GAP).
  intros cols rows Hrows Hcols.
  transitivity (List.length rows * List.length cols)%nat;
    [|now rewrite Hrows, Hcols].
  clear. induction rows as [|py rows IH]; [reflexivity|].
  cbn [flat_map List.length]. rewrite length_app, length_map, IH.
  reflexivity.
Qed.

(** X20.  [generateRawParticlePositions] returns nothing without a drawing
    context; with one it returns one particle per sampled pixel whose red
    byte is above 128, in scan order, at the world position of the pixel,
    so at most 150 * 400 of them; and the two loops end on their conditions,
    not on the fuel of the model. *)
Theorem silhouette_is_the_bright_pixels (data : list nat)
    (random : nat -> R) :
  generateRawParticlePositions None random = []
  /\ map positionOf (generateRawParticlePositions (Some data) random)
     = map worldOf (filter (bright data) sampled)
  /\ (List.length (generateRawParticlePositions (Some data) random)
      <= 150 * 400)%nat
  /\ (forall (T : Type) (body : nat -> T -> T) (s : T) (extra : nat),
         forLoop (SCENE_CONFIG.CANVAS_HEIGHT + extra) 0
           SCENE_CONFIG.CANVAS_HEIGHT SCENE_CONFIG.PARTICLE_GAP body s
         = forLoop SCENE_CONFIG.CANVAS_HEIGHT 0
             SCENE_CONFIG.CANVAS_HEIGHT SCENE_CONFIG.PARTICLE_GAP body s
         /\ forLoop (SCENE_CONFIG.CANVAS_WIDTH + extra) 0
              SCENE_CONFIG.CANVAS_WIDTH SCENE_CONFIG.PARTICLE_GAP body s
            = forLoop SCENE_CONFIG.CANVAS_WIDTH 0
                SCENE_CONFIG.CANVAS_WIDTH SCENE_CONFIG.PARTICLE_GAP body s).
Proof.
  assert (Hpos : map positionOf
                   (generateRawParticlePositions (Some data) random)
                 = map worldOf (filter (bright data) sampled)).
  { apply generateRaw_positions. }
  split; [reflexivity|split; [exact Hpos|split]].
  - rewrite <- (length_map positionOf), Hpos, length_map.
    eapply Nat.le_trans; [apply filter_length_le|].
    rewrite sampled_length. apply Nat.le_refl.
  - intros T body s extra.
    split; apply forLoop_spare_fuel;
      unfold SCENE_CONFIG.PARTICLE_GAP, SCENE_CONFIG.CANVAS_HEIGHT,
        SCENE_CONFIG.CANVAS_WIDTH; lia.
Qed.

Lemma scan_keeps (data : list nat) (random : nat -> R)
    (pixels : list (nat * nat)) (q : RawParticle) :
  forall s : list RawParticle * nat,
    In q (fst s) ->
    In q (fst (fold_left
                 (fun s pixel =>
                    scanPixel data random (fst pixel) (snd pixel) s)
                 pixels s)).
Proof.
  induction pixels as [|pixel rest IH]; intros s Hq; [exact Hq|].
  cbn [fold_left]. apply IH.
  destruct (scanPixel_cases data random pixel s)
    as [(_ & ->)|(_ & p & -> & _)]; [exact Hq|].
  cbn [fst]. apply in_or_app. now left.
Qed.

Lemma scan_members (data : list nat) (random : nat -> R)
    (pixels : list (nat * nat)) (q : RawParticle) :
  forall s : list RawParticle * nat,
    In q (fst (fold_left
                 (fun s pixel =>
                    scanPixel data random (fst pixel) (snd pixel) s)
                 pixels s)) ->
    In q (fst s)
    \/ exists (pixel : nat * nat) (k : nat),
         In pixel pixels
         /\ positionOf q = worldOf pixel
         /\ vx q = (random k - 0.5) * 0.5
         /\ vy q = (random (k + 1)%nat - 0.5) * 0.5
         /\ vz q = (random (k + 2)%nat - 0.5) * 0.5.
Proof.
  induction pixels as [|pixel rest IH]; intros s Hq; [now left|].
  cbn [fold_left] in Hq. apply IH in Hq as [Hq|(px & k & Hin & Hrest)].
  - destruct (scanPixel_cases data random pixel s)
      as [(_ & Heq)|(_ & p & Heq & Hpos & Hvx & Hvy & Hvz)];
      rewrite Heq in Hq; [now left|].
    cbn [fst] in Hq. apply in_app_or in Hq as [Hq|[<-|[]]]; [now left|].
    right. exists pixel, (snd s). split; [now left|]. auto.
  - right. exists px, k. split; [now right|exact Hrest].
Qed.

Lemma visited_members (limit step i : nat) :
  In i (visited limit step) ->
  exists j : nat, i = (j * step)%nat /\ (j < (limit + step - 1) / step)%nat.
Proof.
  unfold visited. intros Hi. apply in_map_iff in Hi as (j & <- & Hj).
  apply in_seq in Hj. exists j. split; [reflexivity|lia].
Qed.

Lemma sampled_members (pixel : nat * nat) :
  In pixel sampled ->
  0 <= INR (fst pixel) <= 298 /\ 0 <= INR (snd pixel) <= 798.
Proof.
  unfold sampled. intros Hin.
  apply in_flat_map in Hin as (py & Hpy & Hin).
  apply in_map_iff in Hin as (px & <- & Hpx). cbn [fst snd].
  apply visited_members in Hpy as (j & -> & Hj).
  apply visited_members in Hpx as (k & -> & Hk).
  change ((SCENE_CONFIG.CANVAS_HEIGHT + SCENE_CONFIG.PARTICLE_GAP - 1)
          / SCENE_CONFIG.PARTICLE_GAP)%nat with 150%nat in Hj.
  change ((SCENE_CONFIG.CANVAS_WIDTH + SCENE_CONFIG.PARTICLE_GAP - 1)
          / SCENE_CONFIG.PARTICLE_GAP)%nat with 400%nat in Hk.
  unfold SCENE_CONFIG.PARTICLE_GAP.
  rewrite !mult_INR. cbn [INR].
  assert (Hj' : INR j <= 149).
  { replace 149 with (INR 149)
      by (rewrite INR_IZR_INZ; reflexivity). apply le_INR. lia. }
  assert (Hk' : INR k <= 399).
  { replace 399 with (INR 399)
      by (rewrite INR_IZR_INZ; reflexivity). apply le_INR. lia. }
  pose proof (pos_INR j). pose proof (pos_INR k). lra.
Qed.

(** X21.  Every raw particle lies in the plane [z = 0], inside the box
    [-60 <= x <= 59.7], [-22.2 <= y <= 22.5], and each component of its
    jitter vector is in [-0.25, 0.25). *)
Theorem raw_particles_are_bounded (ctx : option (list nat))
    (random : nat -> R) (p : RawParticle) :
  unitInterval random ->
  In p (generateRawParticlePositions ctx random) ->
  Scene.z p = 0
  /\ - 60 <= Scene.x p <= 59.7
  /\ - 22.2 <= Scene.y p <= 22.5
  /\ - 0.25 <= vx p < 0.25
  /\ - 0.25 <= vy p < 0.25
  /\ - 0.25 <= vz p < 0.25.
Proof.
  intros Hrand Hp. destruct ctx as [data|]; [|destruct Hp].
  rewrite generateRaw_sampled in Hp.
  apply scan_members in Hp
    as [[]|(pixel & k & Hin & Hpos & Hvx & Hvy & Hvz)].
  apply sampled_members in Hin as [Hy Hx].
  unfold positionOf, worldOf in Hpos. injection Hpos as -> -> ->.
  rewrite Hvx, Hvy, Hvz.
  pose proof (Hrand k). pose proof (Hrand (k + 1)%nat).
  pose proof (Hrand (k + 2)%nat).
  repeat split; lra.
Qed.

Lemma visited_head (limit step : nat) :
  (0 < (limit + step - 1) / step)%nat ->
  exists rest : list nat, visited limit step = 0%nat :: rest.
Proof.
  unfold visited. destruct ((limit + step - 1) / step)%nat as [|c];
    [lia|]. intros _. cbn [seq map]. eexists. reflexivity.
Qed.

Lemma sampled_head :
  exists rest : list (nat * nat), sampled = (0%nat, 0%nat) :: rest.
Proof.
  unfold sampled.
  destruct (visited_head SCENE_CONFIG.CANVAS_HEIGHT
              SCENE_CONFIG.PARTICLE_GAP) as (rows & ->);
    [change (0 < 150)%nat; lia|].
  destruct (visited_head SCENE_CONFIG.CANVAS_WIDTH
              SCENE_CONFIG.PARTICLE_GAP) as (cols & ->);
    [change (0 < 400)%nat; lia|].
  cbn [flat_map map app]. eexists. reflexivity.
Qed.

(** A bitmap whose first pixel is bright. *)
Lemma raw_particles_are_bounded_witness :
  exists p : RawParticle,
    In p (generateRawParticlePositions (Some [255%nat]) (fun _ => 0.7))
    /\ Scene.z p = 0
    /\ - 60 <= Scene.x p <= 59.7
    /\ - 0.25 <= vx p < 0.25.
Proof.
  destruct sampled_head as (rest & Hsampled).
  destruct (scanPixel_cases [255%nat] (fun _ => 0.7) (0%nat, 0%nat)
              ([], 0%nat)) as [(Hdark & _)|(_ & p & Hscan & _)];
    [discriminate|].
  assert (Hin : In p (generateRawParticlePositions (Some [255%nat])
                        (fun _ => 0.7))).
  { rewrite generateRaw_sampled, Hsampled. cbn [fold_left].
    apply scan_keeps. rewrite Hscan. now left. }
  exists p. split; [exact Hin|].
  destruct (raw_particles_are_bounded (Some [255%nat]) (fun _ => 0.7) p)
    as (Hz & Hx & _ & Hvx & _); [intros k; lra|exact Hin|].
  repeat split; lra.
Defined.

(** *** The effect as a whole *)

Lemma empty_groups_no_mesh (textures : list string) :
  filter (fun count => negb (count =? 0)%nat)
    (map (@List.length RawParticle)
       (map (fun _ : string => []) textures)) = [].
Proof. induction textures as [|t ts IH]; [reflexivity|]. cbn. exact IH. Qed.

(** X22.  Without a mesh group the effect returns at once and leaves the refs as
    they are; with one, a rasterization that has no drawing context makes
    it store an empty particle list and create no mesh, without an error,
    after which no frame writes a matrix. *)
Theorem rasterization_failure_builds_nothing
    (uploadedTextures : list string) (random : nat -> R) (w : Refs) :
  (meshGroup w = false ->
   forall ctx, textureEffect uploadedTextures ctx random w = Returned w)
  /\ (meshGroup w = true ->
      exists w' : Refs,
        textureEffect uploadedTextures None random w = Returned w'
        /\ particles (state w') = []
        /\ meshes w' = []
        /\ forall (g : HandGesture) (now c : R),
             writesOf g now (state w') c (meshes w') = []).
Proof.
  split.
  - intros Hgroup ctx. unfold textureEffect, rebuild. now rewrite Hgroup.
  - intros Hgroup. unfold textureEffect, rebuild, distributeParticles.
    rewrite Hgroup. cbn [negb generateRawParticlePositions distribute].
    eexists. split; [reflexivity|]. cbn [state particles meshes].
    rewrite empty_groups_no_mesh. split; [reflexivity|].
    split; [reflexivity|]. intros g now c. rewrite writesOf_eq.
    reflexivity.
Qed.

(** Before and after the scene is initialized. *)
Lemma rasterization_failure_builds_nothing_witness :
  textureEffect ["a"%string] (Some [255%nat]) (fun _ => 0.7) unmounted
  = Returned unmounted
  /\ exists w' : Refs,
       textureEffect ["a"%string] None (fun _ => 0.7) mounted = Returned w'
       /\ particles (state w') = [] /\ meshes w' = [].
Proof.
  split.
  - now apply (rasterization_failure_builds_nothing ["a"%string]
                 (fun _ => 0.7) unmounted).
  - destruct (rasterization_failure_builds_nothing ["a"%string]
                (fun _ => 0.7) mounted) as (_ & Hfail).
    destruct (Hfail eq_refl) as (w' & Hrun & Hp & Hm & _).
    now exists w'.
Defined.

(** X23.  With a mesh group and draws in [0, 1) the effect never throws,
    whatever the bitmap and the textures; it stores one particle per bright
    sampled pixel, in scan order and at the world position of the pixel,
    with pairwise distinct (group, slot) pairs, and it leaves the camera
    and the eased amounts of the state as they were. *)
Theorem texture_effect_completes (uploadedTextures : list string)
    (ctx : option (list nat)) (random : nat -> R) (w : Refs) :
  unitInterval random -> meshGroup w = true ->
  exists w' : Refs,
    textureEffect uploadedTextures ctx random w = Returned w'
    /\ map (fun p => positionOf (raw p)) (particles (state w'))
       = match ctx with
         | None => []
         | Some data => map worldOf (filter (bright data) sampled)
         end
    /\ NoDup (map slot (particles (state w')))
    /\ camera w' = camera w
    /\ cameraZ (state w') = cameraZ (state w)
    /\ velocityZ (state w') = velocityZ (state w)
    /\ flowAmount (state w') = flowAmount (state w)
    /\ scatterAmount (state w') = scatterAmount (state w)
    /\ scaleMultiplier (state w') = scaleMultiplier (state w).
Proof.
  intros Hrand Hgroup. unfold textureEffect.
  set (rawParticles := generateRawParticlePositions ctx random).
  set (draws := fun k => random (3 * List.length rawParticles + k)%nat).
  assert (Hdraws : unitInterval draws) by (intros k; apply Hrand).
  assert (Hinit : consistent
                    (map (fun _ : string => @nil RawParticle)
                       (texturesToUse uploadedTextures)) []).
  { split; [|intros p []]. intros k Hk. unfold countOf, slotsOf.
    cbn [filter map]. now rewrite nth_empty_groups. }
  destruct (distribute_consistent
              (List.length (texturesToUse uploadedTextures)) draws Hdraws
              (texturesToUse_nonempty uploadedTextures) rawParticles 0 _ []
              (length_map _ _) Hinit)
    as (pm & fp & Hdist & Hlen & [Hslots Hgroups] & Hraw).
  unfold rebuild, distributeParticles. rewrite Hgroup, Hdist.
  cbn [negb]. eexists. split; [reflexivity|].
  cbn [state particles camera cameraZ velocityZ flowAmount scatterAmount
         scaleMultiplier].
  split; [|split; [|repeat split]].
  - rewrite <- (map_map raw positionOf), Hraw. cbn [map app].
    subst rawParticles. destruct ctx as [data|]; [|reflexivity].
    apply generateRaw_positions.
  - apply NoDup_slot. intros k.
    destruct (Nat.lt_ge_cases k (List.length pm)) as [Hk|Hk].
    + rewrite (Hslots k Hk). apply seq_NoDup.
    + rewrite (slotsOf_missing_group k (List.length pm) fp Hgroups Hk).
      constructor.
Qed.

(** One texture and a bitmap whose first pixel is bright. *)
Lemma texture_effect_completes_witness :
  exists w' : Refs,
    textureEffect ["a"%string] (Some [255%nat]) (fun _ => 0.7) mounted
    = Returned w'
    /\ cameraZ (state w') = CAMERA_LIMITS.DEFAULT_Z.
Proof.
  destruct (texture_effect_completes ["a"%string] (Some [255%nat])
              (fun _ => 0.7) mounted)
    as (w' & Hrun & _ & _ & _ & Hz & _).
  - intros k. lra.
  - reflexivity.
  - exists w'. split; [exact Hrun|]. rewrite Hz. reflexivity.
Defined.

End BuilderMore.
